(** * Charger Telemetry Bridge: main-process handlers and renderer registry

    A shallow embedding of the Electron application's data path:

    - [main/main.js]: the ['get-charger-data'] handler (one-shot snapshot,
      whole-output decoding) and the ['start-monitoring'] handler
      (streaming supervisor), as a step function of the main process over
      the events it receives;
    - [renderer/src/App.jsx]: [handleChargerData] (the keyed upsert into the
      [chargers] state), [fetchData] and the status-icon lookup.

    JavaScript values are the values [JSON.parse] can produce, plus
    [undefined].  Strings are kept in UTF-8; a chunk is a [Buffer], the
    bytes as the child wrote them, and [Buffer.toString] decodes it.  The
    main process is followed through the events of its children and of its
    window, the child's ['error'] event included, for which the source
    registers no listener. *)

From Stdlib Require Import ZArith Ascii String Lia.
From stdpp Require Import base list strings pretty gmap.

Local Open Scope string_scope.

(** ** JavaScript values and exceptions *)

#[warnings="-register-all"]
Inductive value : Type :=
  | VUndefined
  | VNull
  | VBool (b : bool)
  | VNumber (lexeme : string)
  | VString (s : string)
  | VArray (elems : list value)
  | VObject (props : list (string * value)).

Inductive Exn : Type :=
  | TypeError (message : string)
  | SyntaxError (message : string)
  | Error (message : string).

(** [err.message] and [err.toString()]. *)
Definition message (e : Exn) : string :=
  match e with
  | TypeError m | SyntaxError m | Error m => m
  end.

Definition Exn_name (e : Exn) : string :=
  match e with
  | TypeError _ => "TypeError"
  | SyntaxError _ => "SyntaxError"
  | Error _ => "Error"
  end.

(** [Error.prototype.toString]: the name alone when the message is
    empty. *)
Definition Exn_toString (e : Exn) : string :=
  if (message e =? "") then Exn_name e else Exn_name e ++ ": " ++ message e.

(** A computation that either completes with a value or throws. *)
Inductive result (A : Type) : Type :=
  | Ok (a : A)
  | Throw (e : Exn).
Arguments Ok {A} a.
Arguments Throw {A} e.

#[global] Instance result_ret : MRet result := fun A a => Ok a.
#[global] Instance result_bind : MBind result := fun A B f m =>
  match m with
  | Ok a => f a
  | Throw e => Throw e
  end.

(** JSON text written with apostrophes for its double quotes. *)
Fixpoint quoted (s : string) : string :=
  match s with
  | EmptyString => EmptyString
  | String c r => String (if (c =? "'")%char then "034"%char else c) (quoted r)
  end.

(** ** [JSON.parse]

    The grammar of ECMA-404 as ECMAScript's [JSON.parse] accepts it: one
    value surrounded by optional white space, nothing else.  A number keeps
    its source text.  The text of the [SyntaxError] is the engine's own and
    is not reproduced; the model reports where no value could be read. *)
Module JSON.

Definition is_ws (c : ascii) : bool :=
  (c =? "009")%char || (c =? "010")%char || (c =? "013")%char || (c =? " ")%char.

Fixpoint skip_ws (s : string) : string :=
  match s with
  | String c r => if is_ws c then skip_ws r else s
  | EmptyString => s
  end.

Fixpoint strip_prefix (p s : string) : option string :=
  match p, s with
  | EmptyString, _ => Some s
  | String a p', String b s' => if (a =? b)%char then strip_prefix p' s' else None
  | String _ _, EmptyString => None
  end.

Definition is_digit (c : ascii) : bool :=
  (48 <=? N_of_ascii c)%N && (N_of_ascii c <=? 57)%N.

(** The longest run of decimal digits at the front of [s], and the rest. *)
Fixpoint digits (s : string) : string * string :=
  match s with
  | String c r =>
      if is_digit c then let '(ds, r') := digits r in (String c ds, r')
      else (EmptyString, s)
  | EmptyString => (EmptyString, s)
  end.

Definition hex_digit (c : ascii) : option N :=
  let n := N_of_ascii c in
  if is_digit c then Some (n - 48)%N
  else if (65 <=? n)%N && (n <=? 70)%N then Some (n - 55)%N
  else if (97 <=? n)%N && (n <=? 102)%N then Some (n - 87)%N
  else None.

Definition hex4 (a b c d : ascii) : option N :=
  x ← hex_digit a; y ← hex_digit b; z ← hex_digit c; w ← hex_digit d;
  Some (((x * 16 + y) * 16 + z) * 16 + w)%N.

(** What a string literal contributes: a source character taken as it is,
    or the UTF-16 code unit of a [\uXXXX] escape. *)
Inductive item : Type :=
  | Raw (c : ascii)
  | Esc (u : N).

Definition simple_escape (e : ascii) : option ascii :=
  if (e =? "034")%char then Some "034"%char
  else if (e =? "\")%char then Some "\"%char
  else if (e =? "/")%char then Some "/"%char
  else if (e =? "b")%char then Some "008"%char
  else if (e =? "f")%char then Some "012"%char
  else if (e =? "n")%char then Some "010"%char
  else if (e =? "r")%char then Some "013"%char
  else if (e =? "t")%char then Some "009"%char
  else None.

(** The characters of a string literal after its opening quote, up to and
    without the closing quote. *)
Fixpoint string_chars (s : string) : option (list item * string) :=
  match s with
  | EmptyString => None
  | String c r =>
      if (c =? "034")%char then Some ([], r)
      else if (c =? "\")%char then
        match r with
        | String e r1 =>
            match simple_escape e with
            | Some ch => '(its, r') ← string_chars r1; Some (Raw ch :: its, r')
            | None =>
                if (e =? "u")%char then
                  match r1 with
                  | String h1 (String h2 (String h3 (String h4 r2))) =>
                      u ← hex4 h1 h2 h3 h4;
                      '(its, r') ← string_chars r2; Some (Esc u :: its, r')
                  | _ => None
                  end
                else None
            end
        | EmptyString => None
        end
      else if (N_of_ascii c <? 32)%N then None
      else '(its, r') ← string_chars r; Some (Raw c :: its, r')
  end.

Definition byte (n : N) : ascii := ascii_of_N n.

(** UTF-8 (generalised to lone surrogates) of one code point. *)
Definition utf8 (cp : N) : string :=
  if (cp <? 128)%N then String (byte cp) ""
  else if (cp <? 2048)%N then
    String (byte (192 + cp / 64)) (String (byte (128 + cp mod 64)) "")
  else if (cp <? 65536)%N then
    String (byte (224 + cp / 4096))
      (String (byte (128 + (cp / 64) mod 64)) (String (byte (128 + cp mod 64)) ""))
  else
    String (byte (240 + cp / 262144))
      (String (byte (128 + (cp / 4096) mod 64))
         (String (byte (128 + (cp / 64) mod 64)) (String (byte (128 + cp mod 64)) ""))).

Definition is_high (u : N) : bool := (55296 <=? u)%N && (u <=? 56319)%N.
Definition is_low (u : N) : bool := (56320 <=? u)%N && (u <=? 57343)%N.

(** The string value: escaped code units become UTF-8, a high surrogate
    followed by a low one being a single code point. *)
Fixpoint string_of_items (its : list item) : string :=
  match its with
  | [] => ""
  | Raw c :: r => String c (string_of_items r)
  | Esc hi :: r =>
      match r with
      | Esc lo :: r' =>
          if is_high hi && is_low lo
          then utf8 (65536 + (hi - 55296) * 1024 + (lo - 56320)) ++ string_of_items r'
          else utf8 hi ++ string_of_items r
      | _ => utf8 hi ++ string_of_items r
      end
  end.

Definition string_literal (s : string) : option (string * string) :=
  '(its, r) ← string_chars s; Some (string_of_items its, r).

(** The parts of a number: an optional minus sign; zero, or a non-zero
    digit and more digits; an optional fraction; an optional exponent. *)
Definition sign (s : string) : string * string :=
  match s with
  | String c r => if (c =? "-")%char then ("-", r) else ("", s)
  | EmptyString => ("", s)
  end.

Definition int (s : string) : option (string * string) :=
  match s with
  | String c r =>
      if (c =? "0")%char then Some ("0", r)
      else if is_digit c then let '(ds, r') := digits r in Some (String c ds, r')
      else None
  | EmptyString => None
  end.

Definition frac (s : string) : option (string * string) :=
  match s with
  | String c r =>
      if (c =? ".")%char then
        let '(ds, r') := digits r in
        if (ds =? "") then None else Some ("." ++ ds, r')
      else Some ("", s)
  | EmptyString => Some ("", s)
  end.

Definition exp (s : string) : option (string * string) :=
  match s with
  | String c r =>
      if (c =? "e")%char || (c =? "E")%char then
        let '(sg, r1) :=
          match r with
          | String d r0 =>
              if (d =? "+")%char || (d =? "-")%char then (String d "", r0) else ("", r)
          | EmptyString => ("", r)
          end in
        let '(ds, r') := digits r1 in
        if (ds =? "") then None else Some (String c sg ++ ds, r')
      else Some ("", s)
  | EmptyString => Some ("", s)
  end.

Definition number (s : string) : option (string * string) :=
  let '(sg, s1) := sign s in
  '(i, s2) ← int s1;
  '(f, s3) ← frac s2;
  '(e, s4) ← exp s3;
  Some (sg ++ i ++ f ++ e, s4).

(** The rest of [s] after optional white space and the character [c]. *)
Definition token (c : ascii) (s : string) : option string :=
  match skip_ws s with
  | String c' r => if (c' =? c)%char then Some r else None
  | EmptyString => None
  end.

(** A string, one of the three names, or a number, at the front of [s]. *)
Definition atom (s : string) : option (value * string) :=
  match s with
  | EmptyString => None
  | String c r =>
      if (c =? "034")%char then
        '(str, r') ← string_literal r; Some (VString str, r')
      else
        match strip_prefix "null" s, strip_prefix "true" s, strip_prefix "false" s with
        | Some r', _, _ => Some (VNull, r')
        | _, Some r', _ => Some (VBool true, r')
        | _, _, Some r' => Some (VBool false, r')
        | _, _, _ => '(n, r') ← number s; Some (VNumber n, r')
        end
  end.

(** Recursive descent; every call spends one unit of [fuel], and two calls
    in a row read at least one character. *)
Fixpoint parse_value (fuel : nat) (s : string) : option (value * string) :=
  match fuel with
  | O => None
  | S fuel =>
      match token "{" s with
      | Some r =>
          match token "}" r with
          | Some r' => Some (VObject [], r')
          | None => '(ms, r') ← parse_members fuel r; Some (VObject ms, r')
          end
      | None =>
          match token "[" s with
          | Some r =>
              match token "]" r with
              | Some r' => Some (VArray [], r')
              | None => '(vs, r') ← parse_elements fuel r; Some (VArray vs, r')
              end
          | None => atom (skip_ws s)
          end
      end
  end
with parse_elements (fuel : nat) (s : string) : option (list value * string) :=
  match fuel with
  | O => None
  | S fuel =>
      '(v, r) ← parse_value fuel s;
      match token "," r with
      | Some r' => '(vs, r'') ← parse_elements fuel r'; Some (v :: vs, r'')
      | None => r' ← token "]" r; Some ([v], r')
      end
  end
with parse_members (fuel : nat) (s : string) : option (list (string * value) * string) :=
  match fuel with
  | O => None
  | S fuel =>
      r0 ← token "034" s;
      '(k, r1) ← string_literal r0;
      r2 ← token ":" r1;
      '(v, r3) ← parse_value fuel r2;
      match token "," r3 with
      | Some r' => '(ms, r'') ← parse_members fuel r'; Some ((k, v) :: ms, r'')
      | None => r' ← token "}" r3; Some ([(k, v)], r')
      end
  end.

(** A result read with some fuel is read with any fuel of at least twice
    the number of characters read. *)
Definition enough {A : Type} (parser : nat -> string -> option (A * string))
  (fuel : nat) : Prop :=
  forall s a r,
    parser fuel s = Some (a, r) ->
    String.length r < String.length s
    /\ forall g, 2 * (String.length s - String.length r) <= g -> parser g s = Some (a, r).

Definition parse (text : string) : result value :=
  match parse_value (2 * String.length text + 2) text with
  | Some (v, r) =>
      match skip_ws r with
      | EmptyString => Ok v
      | String _ _ =>
          Throw (SyntaxError
                   ("Unexpected non-whitespace character after JSON at position "
                      ++ pretty (String.length text - String.length (skip_ws r))))
      end
  | None => Throw (SyntaxError "Unexpected token or end of JSON input")
  end.

End JSON.

(** ** [Buffer.prototype.toString]

    The UTF-8 decoder of the Encoding Standard, as [buf.toString()] applies
    it to the bytes of one chunk: well-formed characters are kept, and every
    maximal ill-formed run of bytes, a character cut off by the end of the
    chunk included, becomes U+FFFD.  The text is kept in UTF-8, so a
    well-formed character is copied byte for byte. *)
Module Buffer.

(** Between two bytes: the bytes read so far of the character in progress,
    how many more it needs, and the range the next byte has to be in. *)
Record Decoder : Type := {
  pending : string;
  needed : nat;
  lower : N;
  upper : N
}.

Definition idle : Decoder :=
  {| pending := ""; needed := 0; lower := 128; upper := 191 |}.

(** U+FFFD in UTF-8 *)
Definition replacement : string := String "239" (String "191" (String "189" "")).

(** A byte where a character starts. *)
Definition start (b : ascii) : string * Decoder :=
  let n := N_of_ascii b in
  if (n <=? 127)%N then (String b "", idle)
  else if (194 <=? n)%N && (n <=? 223)%N then
    ("", {| pending := String b ""; needed := 1; lower := 128; upper := 191 |})
  else if (224 <=? n)%N && (n <=? 239)%N then
    ("", {| pending := String b ""; needed := 2;
            lower := if (n =? 224)%N then 160%N else 128%N;
            upper := if (n =? 237)%N then 159%N else 191%N |})
  else if (240 <=? n)%N && (n <=? 244)%N then
    ("", {| pending := String b ""; needed := 3;
            lower := if (n =? 240)%N then 144%N else 128%N;
            upper := if (n =? 244)%N then 143%N else 191%N |})
  else (replacement, idle).

(** One byte: what it completes, and the decoder after it.  A byte that
    cannot continue the character in progress ends it with U+FFFD and is
    read again as a start. *)
Definition byte (st : Decoder) (b : ascii) : string * Decoder :=
  match needed st with
  | O => start b
  | S k =>
      let n := N_of_ascii b in
      if (lower st <=? n)%N && (n <=? upper st)%N then
        match k with
        | O => (pending st ++ String b "", idle)
        | S _ =>
            ("", {| pending := pending st ++ String b ""; needed := k;
                    lower := 128; upper := 191 |})
        end
      else let '(out, st') := start b in (replacement ++ out, st')
  end.

Fixpoint feed (st : Decoder) (buf : string) : string * Decoder :=
  match buf with
  | EmptyString => ("", st)
  | String b r =>
      let '(out1, st1) := byte st b in
      let '(out2, st2) := feed st1 r in
      (out1 ++ out2, st2)
  end.

(** At the end of the chunk a character in progress is cut off. *)
Definition flush (st : Decoder) : string :=
  match needed st with
  | O => ""
  | S _ => replacement
  end.

Definition toString (buf : string) : string :=
  let '(out, st) := feed idle buf in out ++ flush st.

(** The chunk ends between two characters. *)
Definition whole (buf : string) : Prop := snd (feed idle buf) = idle.

(** The bytes of ASCII text. *)
Fixpoint ascii_text (buf : string) : bool :=
  match buf with
  | EmptyString => true
  | String b r => (N_of_ascii b <=? 127)%N && ascii_text r
  end.

End Buffer.

(** ** The main process ([main/main.js]) *)
Module Main.

(** What the handlers registered on one child process close over: the two
    accumulators of a ['get-charger-data'] call, or nothing for the
    monitor. *)
Inductive Handlers : Type :=
  | Snapshot (data errorData : string)
  | Monitor.

(** [mainWindow] is [true] while it holds a window; [pythonProcess] is the
    module-level variable, [None] when it is [undefined] or [null], else
    the handle of a spawned child; [children] are the children that have
    not emitted ['close'] yet, with their handlers; handles are numbered
    in the order of the [spawn] calls. *)
Record State : Type := {
  mainWindow : bool;
  pythonProcess : option nat;
  children : gmap nat Handlers;
  spawned : nat
}.

(** The events of the main process: a ['get-charger-data'] request,
    ['start-monitoring'], ['data'] on the stdout and on the stderr of a
    child with the chunk's bytes, ['close'] of a child with its exit code
    ([None] is [null]), ['closed'] of the window, and ['error'] of a child,
    which is what a child that could not be spawned emits in place of
    ['close']. *)
Inductive Event : Type :=
  | GetChargerData
  | StartMonitoring
  | StdoutData (p : nat) (chunk : string)
  | StderrData (p : nat) (chunk : string)
  | Close (p : nat) (code : option Z)
  | WindowClosed
  | ChildError (p : nat) (err : Exn).

Inductive Settled : Type :=
  | Fulfilled (v : value)
  | Rejected (e : Exn).

Inductive LogArg : Type :=
  | Str (s : string)
  | Err (e : Exn).

(** What a handler does to the outside.  [Decode] records a call of
    [JSON.parse] with its argument; [Settle p] settles the promise of the
    ['get-charger-data'] call that spawned [p]; [Uncaught] is an exception
    that no handler of the program catches. *)
Inductive Effect : Type :=
  | Spawn (p : nat) (args : list string)
  | Decode (text : string)
  | Send (channel : string) (message : value)
  | ConsoleError (args : list LogArg)
  | ConsoleLog (text : string)
  | Settle (p : nat) (r : Settled)
  | Kill (p : nat)
  | Uncaught (e : Exn).

(** The script's path, below the parent of [__dirname]. *)
Definition script : string := "python-scripts/charger_api.py".

(** After [createWindow], before ['start-monitoring'] is emitted. *)
Definition init : State :=
  {| mainWindow := true; pythonProcess := None; children := ∅; spawned := 0 |}.

(** [`${code}`] for the exit code of ['close'], [null] after a signal. *)
Definition show_code (code : option Z) : string :=
  match code with
  | Some n => pretty n
  | None => "null"
  end.

(** [code !== 0] *)
Definition nonzero (code : option Z) : bool :=
  match code with
  | Some 0%Z => false
  | _ => true
  end.

(** [ipcMain.handle('get-charger-data', ...)], up to the registration of
    the handlers. *)
Definition get_charger_data (s : State) : State * list Effect :=
  let p := spawned s in
  ({| mainWindow := mainWindow s;
      pythonProcess := Some p;
      children := <[p := Snapshot "" ""]> (children s);
      spawned := S p |},
   [Spawn p [script]]).

(** [pythonProcess.on('close', ...)] of a ['get-charger-data'] call. *)
Definition snapshot_on_close (code : option Z) (data errorData : string) : Settled :=
  if nonzero code then
    Rejected (Error ("Python script exited with code " ++ show_code code ++ ": " ++ errorData))
  else
    match JSON.parse data with
    | Ok parsedData => Fulfilled parsedData
    | Throw err => Rejected (Error ("Failed to parse Python script output: " ++ message err))
    end.

(** [ipcMain.on('start-monitoring', ...)], up to the registration of the
    handlers. *)
Definition start_monitoring (s : State) : State * list Effect :=
  match pythonProcess s with
  | Some _ => (s, [])
  | None =>
      let p := spawned s in
      ({| mainWindow := mainWindow s;
          pythonProcess := Some p;
          children := <[p := Monitor]> (children s);
          spawned := S p |},
       [Spawn p [script; "--monitor"]])
  end.

(** [pythonProcess.stdout.on('data', ...)] of the monitor.  With no
    window, [mainWindow.webContents] throws inside the [try]. *)
Definition monitor_stdout_on_data (window : bool) (data : string) : list Effect :=
  Decode (Buffer.toString data) ::
  match JSON.parse (Buffer.toString data) with
  | Ok message =>
      if window then [Send "charger-data" message]
      else [ConsoleError
              [Str "Failed to parse Python stdout:";
               Err (TypeError "Cannot read properties of null (reading 'webContents')")]]
  | Throw err => [ConsoleError [Str "Failed to parse Python stdout:"; Err err]]
  end.

Definition set_children (s : State) (c : gmap nat Handlers) : State :=
  {| mainWindow := mainWindow s; pythonProcess := pythonProcess s;
     children := c; spawned := spawned s |}.

(** One event of the main process, dispatched to the handler registered
    for it.  An event for a child that is not running has no handler.  For
    ['error'] no listener is registered on any child, and an emitter throws
    an ['error'] that has no listener: the exception is caught by nobody,
    and the handlers of the child and [pythonProcess] stay as they are. *)
Definition step (s : State) (e : Event) : State * list Effect :=
  match e with
  | GetChargerData => get_charger_data s
  | StartMonitoring => start_monitoring s
  | StdoutData p chunk =>
      match children s !! p with
      | Some (Snapshot data errorData) =>
          (set_children s
             (<[p := Snapshot (data ++ Buffer.toString chunk) errorData]> (children s)), [])
      | Some Monitor => (s, monitor_stdout_on_data (mainWindow s) chunk)
      | None => (s, [])
      end
  | StderrData p chunk =>
      match children s !! p with
      | Some (Snapshot data errorData) =>
          (set_children s
             (<[p := Snapshot data (errorData ++ Buffer.toString chunk)]> (children s)), [])
      | Some Monitor => (s, [ConsoleError [Str "Python stderr:"; Str (Buffer.toString chunk)]])
      | None => (s, [])
      end
  | Close p code =>
      match children s !! p with
      | Some (Snapshot data errorData) =>
          (set_children s (delete p (children s)),
           ((if nonzero code then [] else [Decode data])
              ++ [Settle p (snapshot_on_close code data errorData)])%list)
      | Some Monitor =>
          ({| mainWindow := mainWindow s; pythonProcess := None;
              children := delete p (children s); spawned := spawned s |},
           [ConsoleLog ("Python process exited with code " ++ show_code code)])
      | None => (s, [])
      end
  | WindowClosed =>
      ({| mainWindow := false; pythonProcess := None;
          children := children s; spawned := spawned s |},
       match pythonProcess s with
       | Some p => [Kill p]
       | None => []
       end)
  | ChildError p err =>
      match children s !! p with
      | Some _ => (s, [Uncaught err])
      | None => (s, [])
      end
  end.

Fixpoint run (s : State) (es : list Event) : State * list Effect :=
  match es with
  | [] => (s, [])
  | e :: es' =>
      let '(s1, out1) := step s e in
      let '(s2, out2) := run s1 es' in
      (s2, (out1 ++ out2)%list)
  end.

(** The arguments of the [JSON.parse] calls, the messages sent to the
    renderer and the diagnostics among the effects. *)
Definition decodes (out : list Effect) : list string :=
  omap (fun o => match o with Decode t => Some t | _ => None end) out.

Definition sent (out : list Effect) : list value :=
  omap (fun o => match o with Send _ m => Some m | _ => None end) out.

Definition diagnostics (out : list Effect) : list (list LogArg) :=
  omap (fun o => match o with ConsoleError a => Some a | _ => None end) out.

Definition spawns (out : list Effect) : list nat :=
  omap (fun o => match o with Spawn p _ => Some p | _ => None end) out.

Definition settled (out : list Effect) : list (nat * Settled) :=
  omap (fun o => match o with Settle p r => Some (p, r) | _ => None end) out.

Definition uncaught (out : list Effect) : list Exn :=
  omap (fun o => match o with Uncaught e => Some e | _ => None end) out.

Definition killed (out : list Effect) : list nat :=
  omap (fun o => match o with Kill p => Some p | _ => None end) out.

(** One piece of output of a child, the bytes of one chunk, and the event
    it raises. *)
Inductive Output : Type :=
  | Stdout (chunk : string)
  | Stderr (chunk : string).

Definition emit (p : nat) (o : Output) : Event :=
  match o with
  | Stdout chunk => StdoutData p chunk
  | Stderr chunk => StderrData p chunk
  end.

(** The text of one stream as the handlers collect it: the chunks of the
    stream, each decoded on its own, in order. *)
Fixpoint stdout_text (os : list Output) : string :=
  match os with
  | [] => ""
  | Stdout chunk :: r => Buffer.toString chunk ++ stdout_text r
  | Stderr _ :: r => stdout_text r
  end.

Fixpoint stderr_text (os : list Output) : string :=
  match os with
  | [] => ""
  | Stderr chunk :: r => Buffer.toString chunk ++ stderr_text r
  | Stdout _ :: r => stderr_text r
  end.




(** A whole one-shot call: the request, the child's output, its exit. *)
Definition one_shot (s : State) (os : list Output) (code : option Z) : list Event :=
  (GetChargerData :: map (emit (spawned s)) os ++ [Close (spawned s) code])%list.

Definition window_open (e : Event) : bool :=
  match e with
  | WindowClosed => false
  | _ => true
  end.

(** [needle] occurs in [text]. *)
Definition contains (needle text : string) : Prop :=
  exists before after, text = before ++ needle ++ after.

(** The text of a list of chunks. *)
Fixpoint joined (chunks : list string) : string :=
  match chunks with
  | [] => ""
  | c :: r => c ++ joined r
  end.

Definition LF : string := String "010" "".

(** The complete lines of a text, each without its newline; the text
    after the last newline is no line.  [acc] is the line read so far. *)
Fixpoint lines_from (acc text : string) : list string :=
  match text with
  | EmptyString => []
  | String c r =>
      if (c =? "010")%char then acc :: lines_from "" r
      else lines_from (acc ++ String c "") r
  end.

Definition complete_lines (text : string) : list string := lines_from "" text.

Fixpoint has_newline (text : string) : bool :=
  match text with
  | EmptyString => false
  | String c r => (c =? "010")%char || has_newline r
  end.

(** A chunk that is one line and its newline. *)
Definition one_line (chunk : string) : Prop :=
  exists l, chunk = l ++ LF /\ has_newline l = false.

(** What holds of the main process while the window is open: at most one
    running child is the monitor, [pythonProcess] is set while it runs, and
    every running child has a handle below [spawned]. *)
Definition supervised (s : State) : Prop :=
  (forall p q, children s !! p = Some Monitor -> children s !! q = Some Monitor -> p = q)
  /\ (forall p, children s !! p = Some Monitor -> is_Some (pythonProcess s))
  /\ (forall p, is_Some (children s !! p) -> p < spawned s).

(** At most one running child is the monitor. *)
Definition one_monitor (s : State) : Prop :=
  forall p q, children s !! p = Some Monitor -> children s !! q = Some Monitor -> p = q.

Definition not_start (e : Event) : bool :=
  match e with
  | StartMonitoring => false
  | _ => true
  end.

(** ['start-monitoring'] is not emitted once the window has been closed.
    The program emits it once, when the application is ready. *)
Fixpoint orderly (es : list Event) : bool :=
  match es with
  | [] => true
  | WindowClosed :: r => forallb not_start r
  | _ :: r => orderly r
  end.

(** The monitor is running as child 0 and nothing else has happened. *)
Definition monitoring : State := fst (run init [StartMonitoring]).

(** *** Views of runs and outputs *)

(** The event is ['close'] of child [p]. *)
Definition closes (p : nat) (e : Event) : bool :=
  match e with
  | Close q _ => (q =? p)%nat
  | _ => false
  end.

(** The text of the chunks child [p] wrote to its stdout and to its stderr
    in a run of events, each chunk decoded on its own. *)
Fixpoint own_stdout (p : nat) (es : list Event) : string :=
  match es with
  | [] => ""
  | StdoutData q chunk :: r =>
      if (q =? p)%nat then Buffer.toString chunk ++ own_stdout p r else own_stdout p r
  | _ :: r => own_stdout p r
  end.

Fixpoint own_stderr (p : nat) (es : list Event) : string :=
  match es with
  | [] => ""
  | StderrData q chunk :: r =>
      if (q =? p)%nat then Buffer.toString chunk ++ own_stderr p r else own_stderr p r
  | _ :: r => own_stderr p r
  end.


(** How often the promise of the call that spawned [p] is settled. *)
Definition settles (p : nat) (out : list Effect) : nat :=
  length (List.filter (fun x => (fst x =? p)%nat) (settled out)).

(** The children spawned for a one-shot call, without [--monitor]. *)
Definition one_shot_spawns (out : list Effect) : list nat :=
  omap (fun o =>
          match o with
          | Spawn p [a] => Some p
          | _ => None
          end) out.

Definition is_request (e : Event) : bool :=
  match e with
  | GetChargerData => true
  | _ => false
  end.

(** Neither a one-shot request nor the closing of the window. *)
Definition quiet (e : Event) : bool :=
  match e with
  | GetChargerData | WindowClosed => false
  | _ => true
  end.

(** What the monitor's stdout handler sends for a chunk that decodes, and
    what it logs for one that does not. *)
Definition decoded (chunk : string) : option value :=
  match JSON.parse (Buffer.toString chunk) with
  | Ok message => Some message
  | Throw _ => None
  end.

(** [pythonProcess] holds the monitor while the monitor runs. *)
Definition owned (s : State) : Prop :=
  forall p, children s !! p = Some Monitor -> pythonProcess s = Some p.

Definition undecoded (chunk : string) : option (list LogArg) :=
  match JSON.parse (Buffer.toString chunk) with
  | Ok _ => None
  | Throw err => Some [Str "Failed to parse Python stdout:"; Err err]
  end.

End Main.

(** ** The renderer ([renderer/src/App.jsx]) *)
Module Renderer.

(** The own property [k] of an object: of two members with the same key,
    [JSON.parse] keeps the later one. *)
Fixpoint own_property (props : list (string * value)) (k : string) : option value :=
  match props with
  | [] => None
  | (k', v) :: r =>
      match own_property r k with
      | Some w => Some w
      | None => if (k' =? k) then Some v else None
      end
  end.

(** [v.k] for the keys this program reads ([event], [data], [ip],
    [status], [success], [message], [devices]): none of them is a
    property of a built-in prototype, so a value that is not an object
    with that own property gives [undefined], and [null] and [undefined]
    throw. *)
Definition prop (v : value) (k : string) : result value :=
  match v with
  | VUndefined =>
      Throw (TypeError ("Cannot read properties of undefined (reading '" ++ k ++ "')"))
  | VNull =>
      Throw (TypeError ("Cannot read properties of null (reading '" ++ k ++ "')"))
  | VObject props => Ok (default VUndefined (own_property props k))
  | _ => Ok VUndefined
  end.

Section WithNumbers.

(** [===] on two numbers compares the IEEE doubles they denote; that
    comparison is left open. *)
Variable number_eq : string -> string -> bool.

(** [a === b], for operands that come from different messages: two
    objects or two arrays are then never the same object. *)
Definition strict_equal (a b : value) : bool :=
  match a, b with
  | VUndefined, VUndefined => true
  | VNull, VNull => true
  | VBool x, VBool y => Bool.eqb x y
  | VNumber x, VNumber y => number_eq x y
  | VString x, VString y => (x =? y)
  | _, _ => false
  end.

(** [Array.prototype.findIndex] from index [i] on; [None] is [-1]. *)
Fixpoint findIndex (f : value -> result bool) (l : list value) (i : nat)
  : result (option nat) :=
  match l with
  | [] => Ok None
  | c :: r => b ← f c; if b : bool then Ok (Some i) else findIndex f r (S i)
  end.

(** [handleChargerData(message)] with the updater it passes to
    [setChargers] applied to the current state [prevChargers]. *)
Definition handleChargerData (message prevChargers : value) : result value :=
  event ← prop message "event";
  if strict_equal event (VString "charger_status_update") then
    match prevChargers with
    | VArray prev =>
        existingIndex ←
          findIndex (fun c =>
                       cip ← prop c "ip";
                       data ← prop message "data";
                       dip ← prop data "ip";
                       Ok (strict_equal cip dip)) prev 0;
        match existingIndex with
        | Some i => data ← prop message "data"; Ok (VArray (<[i := data]> prev))
        | None => data ← prop message "data"; Ok (VArray (prev ++ [data])%list)
        end
    | VUndefined =>
        Throw (TypeError "Cannot read properties of undefined (reading 'findIndex')")
    | VNull => Throw (TypeError "Cannot read properties of null (reading 'findIndex')")
    | _ => Throw (TypeError "prevChargers.findIndex is not a function")
    end
  else Ok prevChargers.

(** The messages of the ['charger-data'] channel, applied in order. *)
Fixpoint apply_events (messages : list value) (chargers : value) : result value :=
  match messages with
  | [] => Ok chargers
  | m :: r => c ← handleChargerData m chargers; apply_events r c
  end.

(** The two pieces of state of [App]. *)
Record AppState : Type := { chargers : value; error : value }.

(** [useState([])], [useState(null)] *)
Definition initial : AppState := {| chargers := VArray []; error := VNull |}.

(** [fetchData], given how [await window.api.getChargerData()] ended. *)
Definition fetchData (response : result value) (st : AppState) : AppState :=
  let attempt : result AppState :=
    data ← response;
    success ← prop data "success";
    if strict_equal success (VBool false) then
      m ← prop data "message"; Ok {| chargers := chargers st; error := m |}
    else
      devices ← prop data "devices"; Ok {| chargers := devices; error := VNull |}
  in
  match attempt with
  | Ok st' => st'
  | Throw err => {| chargers := chargers st; error := VString (Exn_toString err) |}
  end.

End WithNumbers.

(** *** Status icons *)

Inductive Category : Type := available | charging | preparing | suspendedev | unknown.

Record IconInfo : Type := { icon : string; color : string; variant : string }.

(** The object literal [statusIcons], by key. *)
Definition statusIcons (c : Category) : IconInfo :=
  match c with
  | available => {| icon := "CheckCircleIcon"; color := "#22c55e"; variant := "pulse" |}
  | charging => {| icon := "BoltIcon"; color := "#3b82f6"; variant := "none" |}
  | preparing => {| icon := "ClockIcon"; color := "#ec4899"; variant := "none" |}
  | suspendedev => {| icon := "ExclamationTriangleIcon"; color := "#ef4444"; variant := "none" |}
  | unknown => {| icon := "ExclamationCircleIcon"; color := "#f59e0b"; variant := "none" |}
  end.

Definition own_key (k : string) : option Category :=
  if (k =? "available") then Some available
  else if (k =? "charging") then Some charging
  else if (k =? "preparing") then Some preparing
  else if (k =? "suspendedev") then Some suspendedev
  else if (k =? "unknown") then Some unknown
  else None.

(** The properties an object literal inherits from [Object.prototype]:
    eleven functions and the accessor [__proto__], whose value is
    [Object.prototype] itself. *)
Definition Object_prototype : list string :=
  ["constructor"; "__defineGetter__"; "__defineSetter__"; "hasOwnProperty";
   "__lookupGetter__"; "__lookupSetter__"; "isPrototypeOf";
   "propertyIsEnumerable"; "toString"; "valueOf"; "__proto__"; "toLocaleString"].

(** What [statusIcons[k]] evaluates to. *)
Inductive Member : Type :=
  | Entry (c : Category)
  | Inherited (name : string)
  | Missing.

Definition statusIcons_get (k : string) : Member :=
  match own_key k with
  | Some c => Entry c
  | None => if existsb (String.eqb k) Object_prototype then Inherited k else Missing
  end.

(** Objects and functions are truthy, [undefined] is not. *)
Definition truthy (m : Member) : bool :=
  match m with
  | Missing => false
  | _ => true
  end.

(** [String.prototype.toLowerCase]: the letters A to Z, and KELVIN SIGN
    (U+212A), the one character outside ASCII whose lower case is an ASCII
    letter.  Other capitals outside ASCII lower-case to text outside ASCII
    and are left as they are; the keys looked up are ASCII. *)
Fixpoint toLowerCase (s : string) : string :=
  match s with
  | EmptyString => EmptyString
  | String a r =>
      let n := N_of_ascii a in
      if (65 <=? n)%N && (n <=? 90)%N then String (ascii_of_N (n + 32)) (toLowerCase r)
      else
        match r with
        | String b (String c r') =>
            if (n =? 226)%N && (N_of_ascii b =? 132)%N && (N_of_ascii c =? 170)%N
            then String "k" (toLowerCase r')
            else String a (toLowerCase r)
        | _ => String a (toLowerCase r)
        end
  end.

(** White space and line terminators of ECMAScript, in UTF-8: one byte
    (TAB, LF, VT, FF, CR, SP), two bytes (U+00A0), three bytes (U+1680,
    U+2000 to U+200A, U+2028, U+2029, U+202F, U+205F, U+3000, U+FEFF). *)
Definition ws1 (a : ascii) : bool :=
  let n := N_of_ascii a in ((9 <=? n)%N && (n <=? 13)%N) || (n =? 32)%N.

Definition ws2 (a b : ascii) : bool :=
  (N_of_ascii a =? 194)%N && (N_of_ascii b =? 160)%N.

Definition ws3 (a b c : ascii) : bool :=
  let '(x, y, z) := (N_of_ascii a, N_of_ascii b, N_of_ascii c) in
  ((x =? 225)%N && (y =? 154)%N && (z =? 128)%N)
  || ((x =? 226)%N && (y =? 128)%N
      && (((128 <=? z)%N && (z <=? 138)%N) || (z =? 168)%N || (z =? 169)%N || (z =? 175)%N))
  || ((x =? 226)%N && (y =? 129)%N && (z =? 159)%N)
  || ((x =? 227)%N && (y =? 128)%N && (z =? 128)%N)
  || ((x =? 239)%N && (y =? 187)%N && (z =? 191)%N).

(** Drop the white space at the front, given how to recognise a two-byte
    and a three-byte white-space character there. *)
Fixpoint strip (w2 : ascii -> ascii -> bool) (w3 : ascii -> ascii -> ascii -> bool)
  (s : string) : string :=
  match s with
  | EmptyString => s
  | String a r =>
      if ws1 a then strip w2 w3 r
      else
        match r with
        | String b r2 =>
            if w2 a b then strip w2 w3 r2
            else
              match r2 with
              | String c r3 => if w3 a b c then strip w2 w3 r3 else s
              | EmptyString => s
              end
        | EmptyString => s
        end
  end.

Definition trimStart (s : string) : string := strip ws2 ws3 s.

Definition trimEnd (s : string) : string :=
  String.rev (strip (fun a b => ws2 b a) (fun a b c => ws3 c b a) (String.rev s)).

(** [String.prototype.trim] *)
Definition trim (s : string) : string := trimEnd (trimStart s).

(** Whether a text has one of the letters A to Z. *)
Definition is_upper (a : ascii) : bool :=
  (65 <=? N_of_ascii a)%N && (N_of_ascii a <=? 90)%N.

Fixpoint has_upper (s : string) : bool :=
  match s with
  | EmptyString => false
  | String a r => is_upper a || has_upper r
  end.

(** [statusIcons[status] || statusIcons['unknown']] *)
Definition iconInfo (status : string) : Member :=
  let m := statusIcons_get status in
  if truthy m then m else statusIcons_get "unknown".

(** The first two lines of the callback of [chargers.map]. *)
Definition status_icon (charger : value) : result Member :=
  st ← prop charger "status";
  match st with
  | VString s => Ok (iconInfo (trim (toLowerCase s)))
  | VUndefined =>
      Throw (TypeError "Cannot read properties of undefined (reading 'toLowerCase')")
  | VNull => Throw (TypeError "Cannot read properties of null (reading 'toLowerCase')")
  | _ => Throw (TypeError "charger.status.toLowerCase is not a function")
  end.

(** *** Records and events, as the registry sees them *)

(** The key of a charger record whose [ip] is a string. *)
Definition ip_of (c : value) : option string :=
  match prop c "ip" with
  | Ok (VString ip) => Some ip
  | _ => None
  end.

(** The record a ['charger_status_update'] message carries. *)
Definition event_data (message : value) : option value :=
  match prop message "event", prop message "data" with
  | Ok (VString tag), Ok data =>
      if (tag =? "charger_status_update") then Some data else None
  | _, _ => None
  end.

(** The [ip] of the record of a well-formed event. *)
Definition event_ip (message : value) : option string :=
  data ← event_data message; ip_of data.

(** The keys of a registry of records. *)
Definition keys (l : list value) : list string := omap ip_of l.

(** Where the first record with key [ip] is. *)
Fixpoint index_of (ip : string) (l : list value) : option nat :=
  match l with
  | [] => None
  | c :: r =>
      if bool_decide (ip_of c = Some ip) then Some 0
      else S <$> index_of ip r
  end.

(** The position a key has in a registry, or gets when it is new. *)
Definition position (ip : string) (l : list value) : nat :=
  default (length l) (index_of ip l).

(** What [handleChargerData] does to a registry of records, given the
    record of the event and its key. *)
Definition upsert (ip : string) (data : value) (l : list value) : list value :=
  match index_of ip l with
  | Some i => <[i := data]> l
  | None => l ++ [data]
  end.

(** Every entry is a record with a string [ip]. *)
Definition records (l : list value) : Prop := Forall (fun c => is_Some (ip_of c)) l.

(** A record with the two fields the registry and the status icon read,
    and the event that carries a record. *)
Definition record (ip status : string) : value :=
  VObject [("ip", VString ip); ("status", VString status)].

Definition update (data : value) : value :=
  VObject [("event", VString "charger_status_update"); ("data", data)].

(** *** Views of the registry and of sequences of messages *)

(** The record a registry holds for a key, at the key's first position. *)
Definition lookup_ip (ip : string) (l : list value) : option value :=
  i ← index_of ip l; l !! i.

(** The record of the last event for [ip] in a sequence, [before] when
    there is none. *)
Fixpoint latest (ip : string) (messages : list value) (before : option value)
  : option value :=
  match messages with
  | [] => before
  | m :: r =>
      latest ip r (if bool_decide (event_ip m = Some ip) then event_data m else before)
  end.

(** The keys [acc], then the new ones among [ips] in the order in which
    they first occur. *)
Fixpoint arrivals (acc ips : list string) : list string :=
  match ips with
  | [] => acc
  | ip :: r => arrivals (if decide (ip ∈ acc) then acc else (acc ++ [ip])%list) r
  end.

(** Every message delivered twice in a row, as two registered listeners
    see it. *)
Definition twice (messages : list value) : list value :=
  flat_map (fun m => [m; m]) messages.

(** A message on which [message.event] can be read. *)
Definition readable (message : value) : bool :=
  match message with
  | VUndefined | VNull => false
  | _ => true
  end.

(** [message.event === 'charger_status_update'], [false] when reading
    [message.event] throws.  The comparison with a string compares no
    numbers. *)
Definition is_update (message : value) : bool :=
  match prop message "event" with
  | Ok (VString tag) => (tag =? "charger_status_update")
  | _ => false
  end.

(** [iconInfo.variant === 'pulse'] in [StatusIndicator]: the inherited
    members have no property [variant]. *)
Definition StatusIndicator_pulse (iconInfo : Member) : bool :=
  match iconInfo with
  | Entry c => (variant (statusIcons c) =? "pulse")
  | _ => false
  end.

End Renderer.


(** * Facts about strings *)

Lemma append_nil_r (s : string) : s ++ "" = s.
Proof.
  induction s as [|c s IH]; [reflexivity |].
  change (String c (s ++ "") = String c s). now rewrite IH.
Qed.

Lemma append_nil_l (s : string) : "" ++ s = s.
Proof. reflexivity. Qed.

Lemma append_assoc (a b c : string) : (a ++ b) ++ c = a ++ b ++ c.
Proof.
  induction a as [|x a IH]; [reflexivity |].
  change (String x ((a ++ b) ++ c) = String x (a ++ b ++ c)). now rewrite IH.
Qed.

Lemma bind_Ok {A B : Type} (a : A) (f : A -> result B) : (Ok a ≫= f) = f a.
Proof. reflexivity. Qed.

Example Exn_toString_cases :
  Exn_toString (Error "") = "Error"
  /\ Exn_toString (Error "boom") = "Error: boom"
  /\ Exn_toString (TypeError "x is not a function") = "TypeError: x is not a function".
Proof. repeat split. Qed.

(** * [JSON.parse]: the fuel is never short *)
Module JSONProps.
Import JSON.

Lemma skip_ws_length (s : string) : String.length (skip_ws s) <= String.length s.
Proof.
  induction s as [|c s IH]; cbn [skip_ws]; [reflexivity |].
  destruct (is_ws c); cbn [String.length]; lia.
Qed.

Lemma token_length (c : ascii) (s r : string) :
  token c s = Some r -> String.length r < String.length s.
Proof.
  unfold token. pose proof (skip_ws_length s) as Hs.
  destruct (skip_ws s) as [|c' r']; [discriminate |].
  destruct (c' =? c)%char; [| discriminate].
  intros [= ->]. cbn [String.length] in Hs. lia.
Qed.

Lemma strip_prefix_length (p s r : string) :
  strip_prefix p s = Some r -> String.length s = String.length p + String.length r.
Proof.
  revert s. induction p as [|a p IH]; intros [|b s]; cbn [strip_prefix]; try discriminate.
  - now intros [= <-].
  - now intros [= <-].
  - destruct (a =? b)%char; [| discriminate].
    intros H. apply IH in H. cbn [String.length]. lia.
Qed.

Lemma digits_length (s : string) : String.length (snd (digits s)) <= String.length s.
Proof.
  induction s as [|c s IH]; cbn [digits]; [reflexivity |].
  destruct (is_digit c); [| reflexivity].
  destruct (digits s) as [ds r]. cbn [snd String.length] in *. lia.
Qed.

Lemma string_chars_length (n : nat) (s : string) (its : list item) (r : string) :
  String.length s <= n -> string_chars s = Some (its, r) ->
  String.length r < String.length s.
Proof.
  revert s its r. induction n as [|n IH]; intros [|c s] its r Hn H;
    try discriminate; cbn [String.length] in Hn; [lia |].
  cbn [string_chars] in H.
  destruct (c =? "034")%char.
  { injection H as _ <-. cbn [String.length]. lia. }
  destruct (c =? "\")%char.
  - destruct s as [|e r1]; [discriminate |].
    destruct (simple_escape e).
    + destruct (string_chars r1) as [[its' r']|] eqn:E; [| discriminate].
      injection H as _ <-. apply IH in E; cbn [String.length] in *; lia.
    + destruct (e =? "u")%char; [| discriminate].
      destruct r1 as [|h1 [|h2 [|h3 [|h4 r2]]]]; try discriminate.
      destruct (hex4 h1 h2 h3 h4); [| discriminate]. cbn in H.
      destruct (string_chars r2) as [[its' r']|] eqn:E; [| discriminate].
      injection H as _ <-. apply IH in E; cbn [String.length] in *; lia.
  - destruct (N_of_ascii c <? 32)%N; [discriminate |].
    destruct (string_chars s) as [[its' r']|] eqn:E; [| discriminate].
    injection H as _ <-. apply IH in E; cbn [String.length] in *; lia.
Qed.

Lemma string_literal_length (s str r : string) :
  string_literal s = Some (str, r) -> String.length r < String.length s.
Proof.
  unfold string_literal.
  destruct (string_chars s) as [[its r']|] eqn:E; [| discriminate].
  intros [= _ <-]. now apply (string_chars_length (String.length s)) in E.
Qed.

Lemma sign_length (s : string) : String.length (snd (sign s)) <= String.length s.
Proof.
  destruct s as [|c s]; cbn [sign]; [reflexivity |].
  destruct (c =? "-")%char; cbn [snd String.length]; lia.
Qed.

Lemma int_length (s i r : string) :
  int s = Some (i, r) -> String.length r < String.length s.
Proof.
  destruct s as [|c s]; cbn [int]; [discriminate |].
  destruct (c =? "0")%char.
  - intros [= _ <-]. cbn [String.length]. lia.
  - destruct (is_digit c); [| discriminate].
    pose proof (digits_length s) as Hd. destruct (digits s) as [ds r'].
    intros [= _ <-]. cbn [snd String.length] in *. lia.
Qed.

Lemma frac_length (s f r : string) :
  frac s = Some (f, r) -> String.length r <= String.length s.
Proof.
  destruct s as [|c s]; cbn [frac]; [now intros [= _ <-] |].
  destruct (c =? ".")%char; [| now intros [= _ <-]].
  pose proof (digits_length s) as Hd. destruct (digits s) as [ds r'].
  destruct (ds =? ""); [discriminate |].
  intros [= _ <-]. cbn [snd String.length] in *. lia.
Qed.

Lemma exp_length (s e r : string) :
  exp s = Some (e, r) -> String.length r <= String.length s.
Proof.
  destruct s as [|c s]; cbn [exp]; [now intros [= _ <-] |].
  destruct ((c =? "e")%char || (c =? "E")%char); [| now intros [= _ <-]].
  assert (Hsg : forall sg r1,
             match s with
             | String d r0 =>
                 if (d =? "+")%char || (d =? "-")%char then (String d "", r0) else ("", s)
             | EmptyString => ("", s)
             end = (sg, r1) -> String.length r1 <= String.length s).
  { intros sg r1. destruct s as [|d r0]; [now intros [= _ <-] |].
    destruct ((d =? "+")%char || (d =? "-")%char); intros [= _ <-];
      cbn [String.length]; lia. }
  destruct (match s with EmptyString => _ | String d r0 => _ end) as [sg r1].
  specialize (Hsg sg r1 eq_refl).
  pose proof (digits_length r1) as Hd. destruct (digits r1) as [ds r'].
  destruct (ds =? ""); [discriminate |].
  intros [= _ <-]. cbn [snd String.length] in *. lia.
Qed.

Lemma number_length (s n r : string) :
  number s = Some (n, r) -> String.length r < String.length s.
Proof.
  unfold number. pose proof (sign_length s) as Hs.
  destruct (sign s) as [sg s1]. cbn [snd] in Hs.
  destruct (int s1) as [[i s2]|] eqn:Ei; cbn; [| discriminate].
  destruct (frac s2) as [[f s3]|] eqn:Ef; cbn; [| discriminate].
  destruct (exp s3) as [[e s4]|] eqn:Ee; cbn; [| discriminate].
  intros [= _ <-].
  apply int_length in Ei. apply frac_length in Ef. apply exp_length in Ee. lia.
Qed.

Lemma atom_length (s : string) (v : value) (r : string) :
  atom s = Some (v, r) -> String.length r < String.length s.
Proof.
  unfold atom. destruct s as [|c s]; [discriminate |].
  destruct (c =? "034")%char.
  - destruct (string_literal s) as [[str r']|] eqn:E; [| discriminate].
    intros [= _ <-]. apply string_literal_length in E. cbn [String.length]. lia.
  - destruct (strip_prefix "null" (String c s)) as [r1|] eqn:E1.
    { intros [= _ <-]. apply strip_prefix_length in E1. rewrite E1. cbn. lia. }
    destruct (strip_prefix "true" (String c s)) as [r2|] eqn:E2.
    { intros [= _ <-]. apply strip_prefix_length in E2. rewrite E2. cbn. lia. }
    destruct (strip_prefix "false" (String c s)) as [r3|] eqn:E3.
    { intros [= _ <-]. apply strip_prefix_length in E3. rewrite E3. cbn. lia. }
    destruct (number (String c s)) as [[n r']|] eqn:E; [| discriminate].
    intros [= _ <-]. now apply number_length in E.
Qed.

Lemma parse_value_S (fuel : nat) (s : string) :
  parse_value (S fuel) s =
  match token "{" s with
  | Some r =>
      match token "}" r with
      | Some r' => Some (VObject [], r')
      | None => '(ms, r') ← parse_members fuel r; Some (VObject ms, r')
      end
  | None =>
      match token "[" s with
      | Some r =>
          match token "]" r with
          | Some r' => Some (VArray [], r')
          | None => '(vs, r') ← parse_elements fuel r; Some (VArray vs, r')
          end
      | None => atom (skip_ws s)
      end
  end.
Proof. reflexivity. Qed.

Lemma parse_elements_S (fuel : nat) (s : string) :
  parse_elements (S fuel) s =
  '(v, r) ← parse_value fuel s;
  match token "," r with
  | Some r' => '(vs, r'') ← parse_elements fuel r'; Some (v :: vs, r'')
  | None => r' ← token "]" r; Some ([v], r')
  end.
Proof. reflexivity. Qed.

Lemma parse_members_S (fuel : nat) (s : string) :
  parse_members (S fuel) s =
  r0 ← token "034" s;
  '(k, r1) ← string_literal r0;
  r2 ← token ":" r1;
  '(v, r3) ← parse_value fuel r2;
  match token "," r3 with
  | Some r' => '(ms, r'') ← parse_members fuel r'; Some ((k, v) :: ms, r'')
  | None => r' ← token "}" r3; Some ([(k, v)], r')
  end.
Proof. reflexivity. Qed.

Lemma fuel_enough (fuel : nat) :
  enough parse_value fuel /\ enough parse_elements fuel /\ enough parse_members fuel.
Proof.
  induction fuel as [|f (IHv & IHe & IHm)]; [repeat split; discriminate |].
  split; [| split]; intros s a r H.
  - rewrite parse_value_S in H.
    destruct (token "{" s) as [r0|] eqn:T0.
    { pose proof (token_length _ _ _ T0) as L0.
      destruct (token "}" r0) as [r1|] eqn:T1.
      - injection H as <- <-. pose proof (token_length _ _ _ T1) as L1.
        split; [lia |]. intros [|g] Hg; [lia |].
        now rewrite parse_value_S, T0, T1.
      - destruct (parse_members f r0) as [[ms r1]|] eqn:E; [| discriminate].
        injection H as <- <-. destruct (IHm _ _ _ E) as [L1 Hm].
        split; [lia |]. intros [|g] Hg; [lia |].
        rewrite parse_value_S, T0, T1, Hm by lia. reflexivity. }
    destruct (token "[" s) as [r0|] eqn:T1.
    { pose proof (token_length _ _ _ T1) as L0.
      destruct (token "]" r0) as [r1|] eqn:T2.
      - injection H as <- <-. pose proof (token_length _ _ _ T2) as L1.
        split; [lia |]. intros [|g] Hg; [lia |].
        now rewrite parse_value_S, T0, T1, T2.
      - destruct (parse_elements f r0) as [[vs r1]|] eqn:E; [| discriminate].
        injection H as <- <-. destruct (IHe _ _ _ E) as [L1 He].
        split; [lia |]. intros [|g] Hg; [lia |].
        rewrite parse_value_S, T0, T1, T2, He by lia. reflexivity. }
    pose proof (atom_length _ _ _ H) as La. pose proof (skip_ws_length s) as Ls.
    split; [lia |]. intros [|g] Hg; [lia |].
    now rewrite parse_value_S, T0, T1.
  - rewrite parse_elements_S in H.
    destruct (parse_value f s) as [[v r0]|] eqn:E; [| discriminate].
    destruct (IHv _ _ _ E) as [L0 Hv]. cbn in H.
    destruct (token "," r0) as [r1|] eqn:T1.
    + pose proof (token_length _ _ _ T1) as L1.
      destruct (parse_elements f r1) as [[vs r2]|] eqn:E2; [| discriminate].
      injection H as <- <-. destruct (IHe _ _ _ E2) as [L2 He].
      split; [lia |]. intros [|g] Hg; [lia |].
      rewrite parse_elements_S, Hv by lia. cbn. rewrite T1, He by lia. reflexivity.
    + destruct (token "]" r0) as [r1|] eqn:T2; [| discriminate].
      injection H as <- <-. pose proof (token_length _ _ _ T2) as L1.
      split; [lia |]. intros [|g] Hg; [lia |].
      rewrite parse_elements_S, Hv by lia. cbn. now rewrite T1, T2.
  - rewrite parse_members_S in H.
    destruct (token "034" s) as [r0|] eqn:T0; [| discriminate]. cbn in H.
    destruct (string_literal r0) as [[k r1]|] eqn:Ek; [| discriminate]. cbn in H.
    destruct (token ":" r1) as [r2|] eqn:T1; [| discriminate]. cbn in H.
    destruct (parse_value f r2) as [[v r3]|] eqn:E; [| discriminate]. cbn in H.
    pose proof (token_length _ _ _ T0) as L0.
    pose proof (string_literal_length _ _ _ Ek) as Lk.
    pose proof (token_length _ _ _ T1) as L1.
    destruct (IHv _ _ _ E) as [L3 Hv].
    destruct (token "," r3) as [r4|] eqn:T2.
    + pose proof (token_length _ _ _ T2) as L4.
      destruct (parse_members f r4) as [[ms r5]|] eqn:E2; [| discriminate].
      injection H as <- <-. destruct (IHm _ _ _ E2) as [L5 Hm].
      split; [lia |]. intros [|g] Hg; [lia |].
      rewrite parse_members_S, T0. cbn. rewrite Ek. cbn. rewrite T1. cbn.
      rewrite Hv by lia. cbn. rewrite T2, Hm by lia. reflexivity.
    + destruct (token "}" r3) as [r4|] eqn:T3; [| discriminate].
      injection H as <- <-. pose proof (token_length _ _ _ T3) as L4.
      split; [lia |]. intros [|g] Hg; [lia |].
      rewrite parse_members_S, T0. cbn. rewrite Ek. cbn. rewrite T1. cbn.
      rewrite Hv by lia. cbn. now rewrite T2, T3.
Qed.

(** What [parse] reads does not depend on its fuel: a value that some
    amount of fuel reads from the whole text is the value [parse] returns. *)
Lemma parse_any_fuel (fuel : nat) (text : string) (v : value) (r : string) :
  parse_value fuel text = Some (v, r) -> skip_ws r = "" -> parse text = Ok v.
Proof.
  intros H Hr. destruct (fuel_enough fuel) as (Hv & _ & _).
  destruct (Hv _ _ _ H) as [_ Hg]. unfold parse.
  rewrite Hg by lia. now rewrite Hr.
Qed.

End JSONProps.

(** * Decoding chunks *)
Module BufferProps.
Import Buffer.




Lemma whole_nil : whole "".
Proof. reflexivity. Qed.

Lemma feed_ascii (buf : string) :
  ascii_text buf = true -> feed idle buf = (buf, idle).
Proof.
  induction buf as [|b buf IH]; [reflexivity |].
  cbn [ascii_text feed]. intros H. apply andb_true_iff in H as [Hb Hr].
  unfold byte. cbn [needed idle]. unfold start. rewrite Hb, (IH Hr).
  reflexivity.
Qed.

(** ASCII text is decoded to itself. *)
Lemma toString_ascii (buf : string) :
  ascii_text buf = true -> toString buf = buf /\ whole buf.
Proof.
  intros H. unfold toString, whole. rewrite (feed_ascii buf H).
  split; [apply append_nil_r | reflexivity].
Qed.

(** A character of two bytes, U+00E9, is decoded when its bytes arrive
    together; cut in two, each piece is decoded to U+FFFD. *)
Example split_character :
  toString (String "195" (String "169" "")) = String "195" (String "169" "")
  /\ toString (String "195" "") ++ toString (String "169" "") =
       replacement ++ replacement.
Proof. split; reflexivity. Qed.

End BufferProps.

(** * The main process *)
Module MainProps.
Import Main.

Lemma set_children_id (s : State) : set_children s (children s) = s.
Proof. now destruct s. Qed.

Lemma run_app (s : State) (es1 es2 : list Event) :
  run s (es1 ++ es2) =
  let '(s1, out1) := run s es1 in
  let '(s2, out2) := run s1 es2 in
  (s2, out1 ++ out2)%list.
Proof.
  revert s. induction es1 as [|e es1 IH]; intros s; simpl.
  - now destruct (run s es2).
  - destruct (step s e) as [s1 o1]. rewrite IH.
    destruct (run s1 es1) as [s2 o2], (run s2 es2) as [s3 o3].
    now rewrite app_assoc.
Qed.

(** The accumulators of a one-shot call hold the text of all the chunks
    its child wrote, in order, and collecting raises no effect. *)
Lemma run_outputs (os : list Output) (s : State) (p : nat) (data errorData : string) :
  children s !! p = Some (Snapshot data errorData) ->
  run s (map (emit p) os) =
  (set_children s
     (<[p := Snapshot (data ++ stdout_text os) (errorData ++ stderr_text os)]> (children s)),
   []).
Proof.
  revert s data errorData.
  induction os as [|o os IH]; intros s data errorData Hp; simpl.
  - rewrite !append_nil_r, insert_id by exact Hp. now rewrite set_children_id.
  - destruct o as [chunk|chunk]; simpl; rewrite Hp.
    + erewrite IH by (simpl; apply lookup_insert_eq).
      simpl. unfold set_children; simpl.
      now rewrite insert_insert_eq, append_assoc.
    + erewrite IH by (simpl; apply lookup_insert_eq).
      simpl. unfold set_children; simpl.
      now rewrite insert_insert_eq, append_assoc.
Qed.

Lemma run_one_shot (s : State) (os : list Output) (code : option Z) :
  run s (one_shot s os code) =
  ({| mainWindow := mainWindow s; pythonProcess := Some (spawned s);
      children := delete (spawned s) (children s); spawned := S (spawned s) |},
   (Spawn (spawned s) [script]
      :: (if nonzero code then [] else [Decode (stdout_text os)])
      ++ [Settle (spawned s) (snapshot_on_close code (stdout_text os) (stderr_text os))])%list).
Proof.
  unfold one_shot. cbn [run step get_charger_data].
  rewrite run_app.
  erewrite run_outputs by (simpl; apply lookup_insert_eq).
  cbn [run step children set_children]. rewrite lookup_insert_eq.
  rewrite !append_nil_l, !app_nil_r.
  cbn [mainWindow pythonProcess children spawned].
  now rewrite !delete_insert_eq.
Qed.

(** *** Whole-output decoding *)

Lemma snapshot_on_close_cases (code : option Z) (data errorData : string) :
  match snapshot_on_close code data errorData with
  | Fulfilled v => nonzero code = false /\ JSON.parse data = Ok v
  | Rejected e =>
      (nonzero code = true
       /\ e = Error ("Python script exited with code " ++ show_code code ++ ": " ++ errorData))
      \/ (nonzero code = false
          /\ exists err, JSON.parse data = Throw err
               /\ e = Error ("Failed to parse Python script output: " ++ message err))
  end.
Proof.
  unfold snapshot_on_close. destruct (nonzero code); [now left |].
  destruct (JSON.parse data) as [v|err]; [easy |]. right. eauto.
Qed.

(** C4, as the code has it.  When the child exits with code 0 and its
    whole output does not decode, the call does exactly this: it spawns its
    child, decodes once, and rejects its promise with an error that carries
    the decode error's message; nothing is thrown and nothing is
    fulfilled.  Every failure found when the child closes, an exit code
    other than 0 or an output that does not decode, is a rejection of the
    promise: whatever the exit code and the output, a call whose child
    closes settles its promise exactly once and throws nothing, and
    fulfils it only with a decoded payload after exit code 0. *)
Theorem malformed_output_is_rejected (s : State) (os : list Output) (err : Exn) :
  JSON.parse (stdout_text os) = Throw err ->
  snd (run s (one_shot s os (Some 0%Z))) =
    [Spawn (spawned s) [script]; Decode (stdout_text os);
     Settle (spawned s)
       (Rejected (Error ("Failed to parse Python script output: " ++ message err)))]
  /\ (forall os' code, exists r,
        settled (snd (run s (one_shot s os' code))) = [(spawned s, r)]
        /\ uncaught (snd (run s (one_shot s os' code))) = []
        /\ match r with
           | Fulfilled v => code = Some 0%Z /\ JSON.parse (stdout_text os') = Ok v
           | Rejected e =>
               (code <> Some 0%Z
                /\ e = Error ("Python script exited with code " ++ show_code code
                                ++ ": " ++ stderr_text os'))
               \/ (code = Some 0%Z
                   /\ exists err',
                        JSON.parse (stdout_text os') = Throw err'
                        /\ e = Error ("Failed to parse Python script output: "
                                        ++ message err'))
           end).
Proof.
  intros Herr. split.
  - rewrite run_one_shot. cbn. unfold snapshot_on_close. cbn. now rewrite Herr.
  - intros os' code. rewrite run_one_shot.
    exists (snapshot_on_close code (stdout_text os') (stderr_text os')).
    split; [now destruct (nonzero code) |].
    split; [now destruct (nonzero code) |].
    pose proof (snapshot_on_close_cases code (stdout_text os') (stderr_text os')) as H.
    assert (Hcode : nonzero code = false -> code = Some 0%Z).
    { destruct code as [[| |]|]; now try discriminate. }
    destruct (snapshot_on_close _ _ _) as [v|e].
    + destruct H as [Hc Hv]. split; [now apply Hcode | exact Hv].
    + destruct H as [[Hc He]|[Hc H]]; [left | right].
      * split; [| exact He]. intros ->. discriminate.
      * split; [now apply Hcode | exact H].
Qed.

Lemma malformed_output_is_rejected_witness :
  exists err,
    JSON.parse (stdout_text [Stdout "not json"]) = Throw err
    /\ snd (run init (one_shot init [Stdout "not json"] (Some 0%Z))) =
         [Spawn 0 [script]; Decode "not json";
          Settle 0
            (Rejected (Error ("Failed to parse Python script output: " ++ message err)))].
Proof.
  eexists. split; [vm_compute; reflexivity |].
  apply (malformed_output_is_rejected init [Stdout "not json"]).
  vm_compute; reflexivity.
Defined.

(** C4, as stated, fails.  A child that cannot be started emits ['error'];
    no listener is registered for it, so the exception is caught by nobody
    and the promise of the call is not settled: the failure does not reach
    the caller. *)
Lemma spawn_failure_is_not_returned :
  uncaught (snd (run init [GetChargerData; ChildError 0 (Error "spawn python.exe ENOENT")])) =
    [Error "spawn python.exe ENOENT"]
  /\ settled (snd (run init [GetChargerData; ChildError 0 (Error "spawn python.exe ENOENT")])) = [].
Proof. split; reflexivity. Qed.

(** C5. When the child exits with a code other than 0, the promise of the
    call is rejected with an error whose message ends with all the text
    accumulated from the child's stderr, and nothing is decoded: the outcome
    is the same for any other output with the same stderr text. *)
Theorem nonzero_exit_takes_precedence (s : State) (os : list Output) (code : option Z) :
  code <> Some 0%Z ->
  exists msg,
    snd (run s (one_shot s os code)) =
      [Spawn (spawned s) [script]; Settle (spawned s) (Rejected (Error msg))]
    /\ msg = "Python script exited with code " ++ show_code code ++ ": " ++ stderr_text os
    /\ contains (stderr_text os) msg
    /\ forall os', stderr_text os' = stderr_text os ->
         snd (run s (one_shot s os' code)) = snd (run s (one_shot s os code)).
Proof.
  intros Hcode.
  assert (Hnz : nonzero code = true) by (destruct code as [[| |]|]; easy).
  eexists. split; [| split; [reflexivity | split]].
  - rewrite run_one_shot. unfold snapshot_on_close. now rewrite Hnz.
  - exists ("Python script exited with code " ++ show_code code ++ ": "), "".
    now rewrite append_nil_r, !append_assoc.
  - intros os' Heq. rewrite !run_one_shot. unfold snapshot_on_close.
    now rewrite Hnz, Heq.
Qed.

Lemma nonzero_exit_takes_precedence_witness :
  Some 1%Z <> Some 0%Z
  /\ exists msg,
       snd (run init (one_shot init [Stdout (quoted "{'success':true,'devices':[]}"); Stderr "boom"]
                        (Some 1%Z))) =
         [Spawn 0 [script]; Settle 0 (Rejected (Error msg))]
       /\ msg = "Python script exited with code 1: boom"
       /\ contains "boom" msg.
Proof.
  split; [discriminate |].
  destruct (nonzero_exit_takes_precedence init
              [Stdout (quoted "{'success':true,'devices':[]}"); Stderr "boom"] (Some 1%Z))
    as (msg & Hrun & Hmsg & Hin & _); [discriminate |].
  exists msg. split; [exact Hrun | split; [exact Hmsg | exact Hin]].
Defined.

(** C10. When the child exits with code 0 and the text accumulated from
    its stdout decodes, the promise is fulfilled with the decoded value as
    it is, whatever its shape. *)
Theorem decoded_payload_is_not_validated (s : State) (os : list Output) (v : value) :
  JSON.parse (stdout_text os) = Ok v ->
  snd (run s (one_shot s os (Some 0%Z))) =
    [Spawn (spawned s) [script]; Decode (stdout_text os);
     Settle (spawned s) (Fulfilled v)].
Proof.
  intros Hv. rewrite run_one_shot. cbn. unfold snapshot_on_close. cbn.
  now rewrite Hv.
Qed.

Lemma decoded_payload_is_not_validated_witness :
  JSON.parse (stdout_text [Stdout "nu"; Stdout "ll"]) = Ok VNull
  /\ snd (run init (one_shot init [Stdout "nu"; Stdout "ll"] (Some 0%Z))) =
       [Spawn 0 [script]; Decode "null"; Settle 0 (Fulfilled VNull)].
Proof.
  split; [reflexivity |].
  apply (decoded_payload_is_not_validated init [Stdout "nu"; Stdout "ll"] VNull).
  reflexivity.
Defined.

(** A bare number and an object with neither [success] nor [devices] are
    passed on as well. *)
Example bare_number_resolves :
  settled (snd (run init (one_shot init [Stdout "42"] (Some 0%Z)))) =
    [(0, Fulfilled (VNumber "42"))].
Proof. reflexivity. Qed.

Example empty_object_resolves :
  settled (snd (run init (one_shot init [Stdout "{}"] (Some 0%Z)))) =
    [(0, Fulfilled (VObject []))].
Proof. reflexivity. Qed.

(** *** Streaming *)

Lemma run_monitor_chunks (chunks : list string) (s : State) (p : nat) :
  children s !! p = Some Monitor ->
  run s (map (StdoutData p) chunks) =
  (s, flat_map (monitor_stdout_on_data (mainWindow s)) chunks).
Proof.
  intros Hp. induction chunks as [|c chunks IH]; [reflexivity |].
  cbn [map run step flat_map]. rewrite Hp, IH. reflexivity.
Qed.

Lemma decodes_app (o1 o2 : list Effect) : decodes (o1 ++ o2) = (decodes o1 ++ decodes o2)%list.
Proof. apply omap_app. Qed.

Lemma decodes_monitor (w : bool) (chunks : list string) :
  decodes (flat_map (monitor_stdout_on_data w) chunks) = map Buffer.toString chunks.
Proof.
  induction chunks as [|c chunks IH]; [reflexivity |].
  cbn [flat_map map]. rewrite decodes_app, IH.
  unfold monitor_stdout_on_data.
  now destruct (JSON.parse (Buffer.toString c)) as [m|e], w.
Qed.

Lemma lines_from_line (l acc rest : string) :
  has_newline l = false ->
  lines_from acc (l ++ LF ++ rest) = (acc ++ l) :: lines_from "" rest.
Proof.
  revert acc. induction l as [|c l IH]; intros acc Hl.
  - now rewrite append_nil_r.
  - cbn [has_newline] in Hl. apply orb_false_iff in Hl as [Hc Hl].
    change (String c l ++ LF ++ rest) with (String c (l ++ LF ++ rest)).
    cbn [lines_from]. rewrite Hc, IH by exact Hl.
    now rewrite append_assoc.
Qed.

Lemma complete_lines_one_line_chunks (chunks : list string) :
  Forall one_line chunks ->
  map (fun l => l ++ LF) (complete_lines (joined chunks)) = chunks.
Proof.
  unfold complete_lines.
  induction 1 as [|c chunks (l & -> & Hl) _ IH]; [reflexivity |].
  cbn [joined]. rewrite append_assoc, lines_from_line by exact Hl.
  cbn [map]. now rewrite IH.
Qed.

(** C2, as the code has it.  The monitor's stdout handler keeps nothing
    between chunks and calls [JSON.parse] exactly once per chunk, on the
    text of that chunk decoded on its own.  When every chunk is exactly one
    line with its newline, these are the complete lines of the stream, one
    decode per line, in order. *)
Theorem one_decode_per_chunk (s : State) (p : nat) (chunks : list string) :
  children s !! p = Some Monitor ->
  fst (run s (map (StdoutData p) chunks)) = s
  /\ decodes (snd (run s (map (StdoutData p) chunks))) = map Buffer.toString chunks
  /\ (Forall one_line chunks ->
      decodes (snd (run s (map (StdoutData p) chunks))) =
      map (fun l => Buffer.toString (l ++ LF)) (complete_lines (joined chunks))).
Proof.
  intros Hp. rewrite run_monitor_chunks by exact Hp. cbn [fst snd].
  rewrite decodes_monitor. split; [reflexivity | split; [reflexivity |]].
  intros Hall.
  rewrite <- (complete_lines_one_line_chunks chunks Hall) at 1.
  now rewrite map_map.
Qed.

Lemma one_decode_per_chunk_witness :
  children monitoring !! 0 = Some Monitor
  /\ Forall one_line ["1" ++ LF; quoted "{'a':1}" ++ LF]
  /\ decodes (snd (run monitoring (map (StdoutData 0) ["1" ++ LF; quoted "{'a':1}" ++ LF]))) =
       ["1" ++ LF; quoted "{'a':1}" ++ LF]
  /\ decodes (snd (run monitoring (map (StdoutData 0) ["1" ++ LF; quoted "{'a':1}" ++ LF]))) =
       map (fun l => Buffer.toString (l ++ LF))
         (complete_lines (joined ["1" ++ LF; quoted "{'a':1}" ++ LF])).
Proof.
  assert (Hlines : Forall one_line ["1" ++ LF; quoted "{'a':1}" ++ LF]).
  { repeat constructor; eexists; (split; [reflexivity | reflexivity]). }
  destruct (one_decode_per_chunk monitoring 0 ["1" ++ LF; quoted "{'a':1}" ++ LF] eq_refl)
    as (_ & Hd & Hl).
  split; [reflexivity | split; [exact Hlines | split; [exact Hd | exact (Hl Hlines)]]].
Defined.

(** C2, as stated, fails.  A chunk with two lines gets one decode, not
    two; a line in two chunks gets two decodes, not one. *)
Lemma decode_per_line_fails :
  length (decodes (snd (run monitoring (map (StdoutData 0) ["1" ++ LF ++ "2" ++ LF]))))
    <> length (complete_lines (joined ["1" ++ LF ++ "2" ++ LF]))
  /\ length (decodes (snd (run monitoring (map (StdoutData 0) [quoted "{'a'"; ":1}" ++ LF]))))
       <> length (complete_lines (joined [quoted "{'a'"; ":1}" ++ LF])).
Proof. split; vm_compute; discriminate. Qed.

Example two_lines_in_one_chunk :
  complete_lines (joined ["1" ++ LF ++ "2" ++ LF]) = ["1"; "2"]
  /\ exists err,
       snd (run monitoring (map (StdoutData 0) ["1" ++ LF ++ "2" ++ LF])) =
         [Decode ("1" ++ LF ++ "2" ++ LF);
          ConsoleError [Str "Failed to parse Python stdout:"; Err err]].
Proof. split; [reflexivity |]. eexists. vm_compute. reflexivity. Qed.

Example one_line_in_two_chunks :
  complete_lines (joined [quoted "{'a'"; ":1}" ++ LF]) = [quoted "{'a':1}"]
  /\ decodes (snd (run monitoring (map (StdoutData 0) [quoted "{'a'"; ":1}" ++ LF]))) =
       [quoted "{'a'"; ":1}" ++ LF]
  /\ length (diagnostics (snd (run monitoring (map (StdoutData 0) [quoted "{'a'"; ":1}" ++ LF]))))
     = 2.
Proof. repeat split; vm_compute; reflexivity. Qed.

(** *** The streaming supervisor *)

(** With [pythonProcess] set, ['start-monitoring'] changes nothing and
    spawns nothing. *)
Lemma start_monitoring_guard (s : State) (h : nat) :
  pythonProcess s = Some h -> step s StartMonitoring = (s, []).
Proof. intros H. cbn. unfold start_monitoring. now rewrite H. Qed.

Lemma start_monitoring_twice (s : State) :
  step (fst (step s StartMonitoring)) StartMonitoring = (fst (step s StartMonitoring), []).
Proof.
  cbn. unfold start_monitoring at 2 3.
  destruct (pythonProcess s) as [h|] eqn:H; cbn [fst].
  - unfold start_monitoring. now rewrite H.
  - reflexivity.
Qed.

Lemma supervised_init : supervised init.
Proof.
  repeat split; cbn; intros *; rewrite ?lookup_empty; try discriminate.
  intros [? ?]; discriminate.
Qed.

Lemma supervised_step (s : State) (e : Event) :
  window_open e = true -> supervised s -> supervised (fst (step s e)).
Proof.
  intros He (Huniq & Hmark & Hfresh).
  assert (Hnew : children s !! spawned s = None).
  { destruct (children s !! spawned s) eqn:E; [| reflexivity].
    specialize (Hfresh (spawned s)). rewrite E in Hfresh.
    specialize (Hfresh (mk_is_Some _ _ eq_refl)). lia. }
  destruct e as [| |p chunk|p chunk|p code| |p err]; try discriminate; cbn [step].
  - (* get-charger-data *)
    unfold get_charger_data. cbn. repeat split; cbn.
    + intros p q Hp Hq.
      apply lookup_insert_Some in Hp as [[_ ?]|[_ Hp]]; [discriminate |].
      apply lookup_insert_Some in Hq as [[_ ?]|[_ Hq]]; [discriminate |].
      eauto.
    + eauto.
    + intros p [x Hp].
      apply lookup_insert_Some in Hp as [[<- _]|[_ Hp]]; [lia |].
      specialize (Hfresh p (mk_is_Some _ _ Hp)). lia.
  - (* start-monitoring *)
    unfold start_monitoring.
    destruct (pythonProcess s) as [h|] eqn:Hpy; cbn; [now repeat split |].
    assert (Hnone : forall p, children s !! p <> Some Monitor).
    { intros p Hp. destruct (Hmark p Hp) as [? ?]. congruence. }
    repeat split; cbn.
    + intros p q Hp Hq.
      apply lookup_insert_Some in Hp as [[<- _]|[_ Hp]]; [| now apply Hnone in Hp].
      apply lookup_insert_Some in Hq as [[<- _]|[_ Hq]]; [| now apply Hnone in Hq].
      reflexivity.
    + eauto.
    + intros p [x Hp].
      apply lookup_insert_Some in Hp as [[<- _]|[_ Hp]]; [lia |].
      specialize (Hfresh p (mk_is_Some _ _ Hp)). lia.
  - (* stdout *)
    destruct (children s !! p) as [[data errorData|]|] eqn:Hc; cbn;
      [| now repeat split | now repeat split].
    repeat split; cbn.
    + intros a b Ha Hb.
      apply lookup_insert_Some in Ha as [[_ ?]|[_ Ha]]; [discriminate |].
      apply lookup_insert_Some in Hb as [[_ ?]|[_ Hb]]; [discriminate |].
      eauto.
    + intros a Ha.
      apply lookup_insert_Some in Ha as [[_ ?]|[_ Ha]]; [discriminate |]. eauto.
    + intros a [x Ha].
      apply lookup_insert_Some in Ha as [[<- _]|[_ Ha]].
      * apply Hfresh. now rewrite Hc.
      * apply Hfresh. now rewrite Ha.
  - (* stderr *)
    destruct (children s !! p) as [[data errorData|]|] eqn:Hc; cbn;
      [| now repeat split | now repeat split].
    repeat split; cbn.
    + intros a b Ha Hb.
      apply lookup_insert_Some in Ha as [[_ ?]|[_ Ha]]; [discriminate |].
      apply lookup_insert_Some in Hb as [[_ ?]|[_ Hb]]; [discriminate |].
      eauto.
    + intros a Ha.
      apply lookup_insert_Some in Ha as [[_ ?]|[_ Ha]]; [discriminate |]. eauto.
    + intros a [x Ha].
      apply lookup_insert_Some in Ha as [[<- _]|[_ Ha]].
      * apply Hfresh. now rewrite Hc.
      * apply Hfresh. now rewrite Ha.
  - (* close *)
    destruct (children s !! p) as [[data errorData|]|] eqn:Hc; cbn;
      [| | now repeat split].
    + repeat split; cbn.
      * intros a b Ha Hb.
        apply lookup_delete_Some in Ha as [_ Ha].
        apply lookup_delete_Some in Hb as [_ Hb]. eauto.
      * intros a Ha. apply lookup_delete_Some in Ha as [_ Ha]. eauto.
      * intros a [x Ha]. apply lookup_delete_Some in Ha as [_ Ha].
        apply Hfresh. now rewrite Ha.
    + repeat split; cbn.
      * intros a b Ha Hb.
        apply lookup_delete_Some in Ha as [_ Ha].
        apply lookup_delete_Some in Hb as [_ Hb]. eauto.
      * intros a Ha. apply lookup_delete_Some in Ha as [Hne Ha].
        destruct Hne. eauto.
      * intros a [x Ha]. apply lookup_delete_Some in Ha as [_ Ha].
        apply Hfresh. now rewrite Ha.
  - (* error *)
    now destruct (children s !! p).
Qed.

Lemma supervised_run (es : list Event) (s : State) :
  forallb window_open es = true -> supervised s -> supervised (fst (run s es)).
Proof.
  revert s. induction es as [|e es IH]; intros s Hes Hs; [exact Hs |].
  cbn [forallb] in Hes. apply andb_true_iff in Hes as [He Hes].
  cbn [run]. pose proof (supervised_step s e He Hs) as H1.
  destruct (step s e) as [s1 o1]. cbn [fst] in H1.
  specialize (IH s1 Hes H1). now destruct (run s1 es).
Qed.

Lemma one_monitor_step (s : State) (e : Event) :
  not_start e = true -> one_monitor s -> one_monitor (fst (step s e)).
Proof.
  unfold one_monitor. intros He Hs.
  destruct e as [| |p chunk|p chunk|p code| |p err]; try discriminate; cbn [step].
  - intros a b Ha Hb. cbn in Ha, Hb.
    apply lookup_insert_Some in Ha as [[_ ?]|[_ Ha]]; [discriminate |].
    apply lookup_insert_Some in Hb as [[_ ?]|[_ Hb]]; [discriminate |].
    eauto.
  - destruct (children s !! p) as [[data errorData|]|]; cbn; [| assumption..].
    intros a b Ha Hb.
    apply lookup_insert_Some in Ha as [[_ ?]|[_ Ha]]; [discriminate |].
    apply lookup_insert_Some in Hb as [[_ ?]|[_ Hb]]; [discriminate |].
    eauto.
  - destruct (children s !! p) as [[data errorData|]|]; cbn; [| assumption..].
    intros a b Ha Hb.
    apply lookup_insert_Some in Ha as [[_ ?]|[_ Ha]]; [discriminate |].
    apply lookup_insert_Some in Hb as [[_ ?]|[_ Hb]]; [discriminate |].
    eauto.
  - destruct (children s !! p) as [[data errorData|]|]; cbn; [| | assumption];
      intros a b Ha Hb;
      apply lookup_delete_Some in Ha as [_ Ha];
      apply lookup_delete_Some in Hb as [_ Hb]; eauto.
  - exact Hs.
  - now destruct (children s !! p).
Qed.

Lemma one_monitor_run (es : list Event) (s : State) :
  forallb not_start es = true -> one_monitor s -> one_monitor (fst (run s es)).
Proof.
  revert s. induction es as [|e es IH]; intros s Hes Hs; [exact Hs |].
  cbn [forallb] in Hes. apply andb_true_iff in Hes as [He Hes].
  cbn [run]. pose proof (one_monitor_step s e He Hs) as H1.
  destruct (step s e) as [s1 o1]. cbn [fst] in H1.
  specialize (IH s1 Hes H1). now destruct (run s1 es).
Qed.

Lemma orderly_run (es : list Event) (s : State) :
  orderly es = true -> supervised s -> one_monitor (fst (run s es)).
Proof.
  revert s. induction es as [|e es IH]; intros s Hes Hs; [exact (proj1 Hs) |].
  assert (Hopen : window_open e = true -> orderly es = true ->
                  one_monitor (fst (run s (e :: es)))).
  { intros He Hes'. cbn [run]. pose proof (supervised_step s e He Hs) as H1.
    destruct (step s e) as [s1 o1]. cbn [fst] in H1.
    specialize (IH s1 Hes' H1). now destruct (run s1 es). }
  destruct e; try (now apply Hopen).
  change (WindowClosed :: es) with ([WindowClosed] ++ es)%list.
  rewrite run_app. cbn [run step].
  pose proof (one_monitor_run es
                {| mainWindow := false; pythonProcess := None;
                   children := children s; spawned := spawned s |} Hes) as H.
  destruct (run _ es) as [s2 o2]. apply H. exact (proj1 Hs).
Qed.

Lemma orderly_app_l (es1 es2 : list Event) :
  orderly (es1 ++ es2) = true -> orderly es1 = true.
Proof.
  induction es1 as [|e es1 IH]; [reflexivity |].
  destruct e; cbn [app orderly]; try exact IH.
  rewrite forallb_app. intros H. now apply andb_true_iff in H as [H _].
Qed.

(** C8, as the code has it.  With [pythonProcess] set, ['start-monitoring']
    changes nothing and spawns nothing.  As long as the window has not been
    closed, [pythonProcess] is set whenever a monitor runs, so that
    ['start-monitoring'] changes nothing and spawns nothing while a monitor
    runs.  And at every moment of a run in which ['start-monitoring'] is not
    emitted after the window was closed, at most one running child is a
    monitor. *)
Theorem start_monitoring_is_singleton (es : list Event) :
  let s := fst (run init es) in
  (forall h, pythonProcess s = Some h ->
     step s StartMonitoring = (s, []) /\ spawns (snd (step s StartMonitoring)) = [])
  /\ (forallb window_open es = true ->
      forall p, children s !! p = Some Monitor ->
        is_Some (pythonProcess s)
        /\ step s StartMonitoring = (s, []) /\ spawns (snd (step s StartMonitoring)) = [])
  /\ (orderly es = true ->
      forall es1 es2, es = (es1 ++ es2)%list ->
        forall p q,
          children (fst (run init es1)) !! p = Some Monitor ->
          children (fst (run init es1)) !! q = Some Monitor -> p = q).
Proof.
  intros s. subst s. split; [| split].
  - intros h Hh. now rewrite (start_monitoring_guard _ h Hh).
  - intros Hopen p Hp.
    destruct (supervised_run es init Hopen supervised_init) as (_ & Hmark & _).
    destruct (Hmark p Hp) as [h Hh]. split; [now exists h |].
    now rewrite (start_monitoring_guard (fst (run init es)) h Hh).
  - intros Hes es1 es2 ->.
    exact (orderly_run es1 init (orderly_app_l es1 es2 Hes) supervised_init).
Qed.

Lemma start_monitoring_is_singleton_witness :
  forallb window_open [StartMonitoring; GetChargerData; StdoutData 0 "1"] = true
  /\ orderly [StartMonitoring; GetChargerData; StdoutData 0 "1"] = true
  /\ children (fst (run init [StartMonitoring; GetChargerData; StdoutData 0 "1"])) !! 0 =
       Some Monitor
  /\ step (fst (run init [StartMonitoring; GetChargerData; StdoutData 0 "1"])) StartMonitoring =
       (fst (run init [StartMonitoring; GetChargerData; StdoutData 0 "1"]), [])
  /\ (forall q,
        children (fst (run init [StartMonitoring; GetChargerData])) !! q = Some Monitor ->
        0 = q).
Proof.
  destruct (start_monitoring_is_singleton [StartMonitoring; GetChargerData; StdoutData 0 "1"])
    as (_ & Hopen & Hone).
  split; [reflexivity | split; [reflexivity | split; [reflexivity | split]]].
  - exact (proj1 (proj2 (Hopen eq_refl 0 eq_refl))).
  - intros q.
    exact (Hone eq_refl [StartMonitoring; GetChargerData] [StdoutData 0 "1"] eq_refl
             0 q eq_refl).
Defined.

(** C8, as stated, fails.  The monitor is started, a ['get-charger-data']
    call is made and the window is closed: the monitor still runs, closing
    the window has killed the child of the call and cleared
    [pythonProcess], and ['start-monitoring'] now spawns a second monitor
    beside the first. *)
Lemma second_monitor_is_spawned :
  children (fst (run init [StartMonitoring; GetChargerData; WindowClosed])) !! 0 = Some Monitor
  /\ killed (snd (run init [StartMonitoring; GetChargerData; WindowClosed])) = [1]
  /\ pythonProcess (fst (run init [StartMonitoring; GetChargerData; WindowClosed])) = None
  /\ snd (step (fst (run init [StartMonitoring; GetChargerData; WindowClosed]))
            StartMonitoring) = [Spawn 2 [script; "--monitor"]]
  /\ children (fst (run init [StartMonitoring; GetChargerData; WindowClosed; StartMonitoring]))
       !! 0 = Some Monitor
  /\ children (fst (run init [StartMonitoring; GetChargerData; WindowClosed; StartMonitoring]))
       !! 2 = Some Monitor.
Proof. repeat split. Qed.

(** The same without a call in between: closing the window clears
    [pythonProcess] when it kills the monitor, before the monitor has
    closed. *)
Example restart_before_exit :
  killed (snd (run init [StartMonitoring; WindowClosed])) = [0]
  /\ children (fst (run init [StartMonitoring; WindowClosed; StartMonitoring])) !! 0 =
       Some Monitor
  /\ children (fst (run init [StartMonitoring; WindowClosed; StartMonitoring])) !! 1 =
       Some Monitor.
Proof. repeat split. Qed.

Example start_twice_spawns_once :
  spawns (snd (run init [StartMonitoring; StartMonitoring])) = [0].
Proof. reflexivity. Qed.

(** *** The one-shot call and the supervisor's variable *)

Lemma get_charger_data_sets_pythonProcess (s : State) :
  pythonProcess (fst (step s GetChargerData)) = Some (spawned s).
Proof. reflexivity. Qed.

(** The accumulators of the other calls and the monitor's handlers are
    out of reach of a child's output. *)
Lemma output_touches_one_child (s : State) (p q : nat) (o : Output) :
  p <> q -> children (fst (step s (emit p o))) !! q = children s !! q.
Proof.
  intros Hpq. destruct o as [chunk|chunk]; cbn;
    destruct (children s !! p) as [[data errorData|]|]; cbn;
    now rewrite ?lookup_insert_ne.
Qed.

(** C1 fails on the code.  With the monitor running as child 0, a
    ['get-charger-data'] call stores its own child 1 in [pythonProcess];
    closing the window then kills child 1 and leaves the monitor running;
    and once the monitor has exited and a call has been made,
    ['start-monitoring'] spawns nothing although no monitor runs. *)
Theorem get_charger_data_overwrites_pythonProcess :
  (pythonProcess monitoring = Some 0
   /\ children monitoring !! 0 = Some Monitor
   /\ pythonProcess (fst (step monitoring GetChargerData)) = Some 1
   /\ children (fst (step monitoring GetChargerData)) !! 0 = Some Monitor)
  /\ (killed (snd (run monitoring [GetChargerData; WindowClosed])) = [1]
      /\ children (fst (run monitoring [GetChargerData; WindowClosed])) !! 0 = Some Monitor)
  /\ (let s := fst (run monitoring
                      (Close 0 (Some 1%Z) :: one_shot (fst (step monitoring (Close 0 (Some 1%Z))))
                                               [Stdout "{}"] (Some 0%Z))) in
      children s = ∅ /\ pythonProcess s = Some 1 /\ step s StartMonitoring = (s, [])).
Proof. repeat split; vm_compute; reflexivity. Qed.

End MainProps.

(** * The renderer *)
Module RendererProps.
Import Renderer.

Lemma ip_of_Some (c : value) (ip : string) :
  ip_of c = Some ip -> prop c "ip" = Ok (VString ip).
Proof.
  unfold ip_of. destruct (prop c "ip") as [[]|]; try discriminate.
  now intros [= ->].
Qed.

Lemma event_data_Some (message data : value) :
  event_data message = Some data ->
  prop message "event" = Ok (VString "charger_status_update")
  /\ prop message "data" = Ok data.
Proof.
  unfold event_data.
  destruct (prop message "event") as [[]|]; try discriminate.
  destruct (prop message "data") as [d|]; try discriminate.
  destruct (String.eqb_spec s "charger_status_update") as [->|]; [| discriminate].
  now intros [= ->].
Qed.

Lemma event_ip_Some (message : value) (ip : string) :
  event_ip message = Some ip ->
  exists data, event_data message = Some data /\ ip_of data = Some ip.
Proof. unfold event_ip. intros H. now apply bind_Some in H. Qed.

(** *** Keys and positions *)

Lemma index_of_Some (ip : string) (l : list value) (i : nat) :
  index_of ip l = Some i ->
  exists c, l !! i = Some c /\ ip_of c = Some ip.
Proof.
  revert i. induction l as [|c l IH]; intros i; cbn [index_of]; [discriminate |].
  case_bool_decide as Hc.
  - intros [= <-]. now exists c.
  - destruct (index_of ip l) as [n|]; [| discriminate].
    intros [= <-]. destruct (IH n eq_refl) as (x & Hx & Hip). now exists x.
Qed.

Lemma index_of_first (ip : string) (l : list value) (i j : nat) (c : value) :
  index_of ip l = Some i -> l !! j = Some c -> ip_of c = Some ip -> i <= j.
Proof.
  revert i j. induction l as [|x l IH]; intros i j; cbn [index_of]; [discriminate |].
  case_bool_decide as Hx.
  - intros [= <-] _ _. lia.
  - destruct (index_of ip l) as [n|] eqn:En; [| discriminate].
    intros [= <-]. destruct j as [|j]; cbn.
    + intros [= ->] Hc. contradiction.
    + intros Hj Hc. specialize (IH n j eq_refl Hj Hc). lia.
Qed.

Lemma elem_of_keys (k : string) (l : list value) :
  k ∈ keys l <-> exists c, c ∈ l /\ ip_of c = Some k.
Proof. apply list_elem_of_omap. Qed.

Lemma index_of_None (ip : string) (l : list value) :
  index_of ip l = None <-> ip ∉ keys l.
Proof.
  rewrite elem_of_keys. induction l as [|c l IH]; cbn [index_of].
  - split; [| reflexivity]. intros _ (c & Hc & _). now apply elem_of_nil in Hc.
  - case_bool_decide as Hc.
    + split; [discriminate |]. intros H. destruct H. exists c. split; [left | exact Hc].
    + destruct (index_of ip l) as [n|]; cbn.
      * split; [discriminate |]. intros H. exfalso.
        assert (Hsome : Some n <> None) by discriminate.
        apply Hsome, IH. intros (x & Hx & Hip). apply H. exists x. split; [now right | exact Hip].
      * split; [| reflexivity]. intros _ (x & Hx & Hip).
        apply elem_of_cons in Hx as [->|Hx]; [contradiction |].
        apply (proj1 IH eq_refl). eauto.
Qed.

Lemma index_of_lt (ip : string) (l : list value) (i : nat) :
  index_of ip l = Some i -> i < length l.
Proof.
  intros H. destruct (index_of_Some ip l i H) as (c & Hc & _).
  now apply lookup_lt_Some in Hc.
Qed.

Lemma keys_app (l1 l2 : list value) : keys (l1 ++ l2) = (keys l1 ++ keys l2)%list.
Proof. apply omap_app. Qed.

Lemma keys_insert (l : list value) (i : nat) (c d : value) :
  l !! i = Some c -> ip_of d = ip_of c -> keys (<[i := d]> l) = keys l.
Proof.
  unfold keys. revert i. induction l as [|x l IH]; intros [|i]; cbn; try discriminate.
  - intros [= ->] ->. reflexivity.
  - intros Hi Hd. specialize (IH i Hi Hd).
    destruct (ip_of x); [f_equal |]; exact IH.
Qed.

Lemma keys_length (l : list value) : records l -> length (keys l) = length l.
Proof.
  unfold keys. induction 1 as [|c l [k Hk] _ IH]; [reflexivity |].
  cbn. rewrite Hk. cbn. now rewrite IH.
Qed.

(** Two records with the same key in a registry without repeated keys are
    at the same place. *)
Lemma keys_NoDup_lookup (l : list value) (i j : nat) (a b : value) (k : string) :
  NoDup (keys l) -> l !! i = Some a -> l !! j = Some b ->
  ip_of a = Some k -> ip_of b = Some k -> i = j.
Proof.
  unfold keys. revert i j.
  induction l as [|x l IH]; intros i j Hnd Hi Hj Ha Hb; [discriminate |].
  assert (Hmem : forall n c, l !! n = Some c -> ip_of c = Some k -> k ∈ omap ip_of l).
  { intros n c Hn Hc. apply list_elem_of_omap. exists c.
    split; [| exact Hc]. apply list_elem_of_lookup. eauto. }
  destruct i as [|i], j as [|j]; cbn in Hi, Hj.
  - reflexivity.
  - injection Hi as ->. cbn in Hnd. rewrite Ha in Hnd.
    apply NoDup_cons in Hnd as [Hnot _]. destruct Hnot. eauto.
  - injection Hj as ->. cbn in Hnd. rewrite Hb in Hnd.
    apply NoDup_cons in Hnd as [Hnot _]. destruct Hnot. eauto.
  - f_equal. apply IH; try assumption.
    cbn in Hnd. destruct (ip_of x); [now apply NoDup_cons in Hnd as [_ ?] | exact Hnd].
Qed.

Lemma upsert_records (ip : string) (d : value) (l : list value) :
  ip_of d = Some ip -> records l -> records (upsert ip d l).
Proof.
  intros Hd Hl. unfold upsert, records.
  destruct (index_of ip l) as [i|].
  - apply Forall_insert; [exact Hl | now rewrite Hd].
  - apply Forall_app. split; [exact Hl |]. constructor; [now rewrite Hd | constructor].
Qed.

Lemma upsert_keys (ip : string) (d : value) (l : list value) :
  ip_of d = Some ip ->
  keys (upsert ip d l) = if decide (ip ∈ keys l) then keys l else (keys l ++ [ip])%list.
Proof.
  intros Hd. unfold upsert. destruct (index_of ip l) as [i|] eqn:Ei.
  - destruct (index_of_Some ip l i Ei) as (c & Hc & Hip).
    rewrite (keys_insert l i c d Hc) by congruence.
    destruct (decide (ip ∈ keys l)) as [|Hn]; [reflexivity |].
    apply index_of_None in Hn. congruence.
  - pose proof (proj1 (index_of_None ip l) Ei) as Hn.
    destruct (decide (ip ∈ keys l)); [contradiction |].
    rewrite keys_app. unfold keys at 2. cbn. now rewrite Hd.
Qed.

Lemma index_of_insert (ip : string) (d : value) (l : list value) (i : nat) :
  ip_of d = Some ip -> index_of ip l = Some i -> index_of ip (<[i := d]> l) = Some i.
Proof.
  intros Hd. revert i.
  induction l as [|c l IH]; intros i; cbn [index_of]; [discriminate |].
  case_bool_decide as Hc.
  - intros [= <-]. change (<[0 := d]> (c :: l)) with (d :: l).
    cbn [index_of]. now rewrite bool_decide_eq_true_2.
  - destruct (index_of ip l) as [n|] eqn:En; [| discriminate].
    intros [= <-]. change (<[S n := d]> (c :: l)) with (c :: <[n := d]> l).
    cbn [index_of]. rewrite bool_decide_eq_false_2 by exact Hc.
    specialize (IH n eq_refl). now rewrite IH.
Qed.

Lemma index_of_snoc (ip : string) (d : value) (l : list value) :
  ip_of d = Some ip -> index_of ip l = None -> index_of ip (l ++ [d]) = Some (length l).
Proof.
  intros Hd. induction l as [|c l IH]; cbn [index_of app length].
  - intros _. now rewrite bool_decide_eq_true_2.
  - case_bool_decide as Hc; [discriminate |].
    destruct (index_of ip l) as [n|] eqn:En; [discriminate |].
    intros _. specialize (IH eq_refl). now rewrite IH.
Qed.

Lemma upsert_position (ip : string) (d : value) (l : list value) :
  ip_of d = Some ip -> index_of ip (upsert ip d l) = Some (position ip l).
Proof.
  intros Hd. unfold upsert, position.
  destruct (index_of ip l) as [i|] eqn:Ei; simpl.
  - now apply index_of_insert.
  - now apply index_of_snoc.
Qed.

(** *** [handleChargerData] on a registry of records *)

Section Registry.

Variable number_eq : string -> string -> bool.

Lemma findIndex_records (message data : value) (ip : string) (l : list value) (i : nat) :
  prop message "data" = Ok data -> ip_of data = Some ip -> records l ->
  findIndex
    (fun c =>
       cip ← prop c "ip";
       data ← prop message "data";
       dip ← prop data "ip";
       Ok (strict_equal number_eq cip dip)) l i
  = Ok ((fun n => i + n) <$> index_of ip l).
Proof.
  intros Hdata Hip Hl. apply ip_of_Some in Hip as Hdip.
  set (same_ip := fun c : value => _).
  assert (Hsame : forall c k, ip_of c = Some k -> same_ip c = Ok (k =? ip)).
  { intros c k Hk. unfold same_ip.
    now rewrite (ip_of_Some c k Hk), bind_Ok, Hdata, bind_Ok, Hdip, bind_Ok. }
  clearbody same_ip. revert i.
  induction Hl as [|c l [k Hk] _ IH]; intros i; cbn [findIndex index_of].
  - reflexivity.
  - rewrite (Hsame c k Hk), bind_Ok, Hk.
    destruct (String.eqb_spec k ip) as [->|Hne].
    + rewrite bool_decide_eq_true_2 by reflexivity. cbn. do 3 f_equal. lia.
    + rewrite bool_decide_eq_false_2 by congruence.
      rewrite IH. destruct (index_of ip l) as [n|]; cbn; [| reflexivity].
      do 3 f_equal. lia.
Qed.

Lemma handleChargerData_records (message data : value) (ip : string) (l : list value) :
  event_data message = Some data -> ip_of data = Some ip -> records l ->
  handleChargerData number_eq message (VArray l) = Ok (VArray (upsert ip data l)).
Proof.
  intros Hev Hip Hl. apply event_data_Some in Hev as [Htag Hdata].
  unfold handleChargerData. rewrite Htag, bind_Ok. cbn [strict_equal].
  rewrite String.eqb_refl.
  rewrite (findIndex_records message data ip l 0 Hdata Hip Hl), bind_Ok.
  unfold upsert. destruct (index_of ip l) as [n|]; cbn [fmap option_fmap option_map];
    now rewrite Hdata, bind_Ok.
Qed.

(** A message with another [event] leaves the registry as it is. *)
Lemma handleChargerData_other (message tag chargers : value) :
  prop message "event" = Ok tag ->
  strict_equal number_eq tag (VString "charger_status_update") = false ->
  handleChargerData number_eq message chargers = Ok chargers.
Proof.
  intros Htag Hne. unfold handleChargerData. now rewrite Htag, bind_Ok, Hne.
Qed.

(** C6.  Two events with the same [ip], applied in order to a registry
    of records, leave the second event's record at the position of that
    [ip]: where its first record was, or at the end, where the first
    event appends it when the [ip] is new.  The other positions keep
    their entries, and in a registry without repeated keys no other entry
    has that [ip]. *)
Theorem upsert_last_write_wins (prev : list value) (E1 E2 d1 d2 : value) (ip : string) :
  records prev ->
  event_data E1 = Some d1 -> ip_of d1 = Some ip ->
  event_data E2 = Some d2 -> ip_of d2 = Some ip ->
  exists reg,
    apply_events number_eq [E1; E2] (VArray prev) = Ok (VArray reg)
    /\ reg !! position ip prev = Some d2
    /\ (forall j, j <> position ip prev -> reg !! j = prev !! j)
    /\ (ip ∉ keys prev ->
        position ip prev = length prev
        /\ handleChargerData number_eq E1 (VArray prev) = Ok (VArray (prev ++ [d1])))
    /\ (NoDup (keys prev) ->
        forall j c, reg !! j = Some c -> ip_of c = Some ip -> j = position ip prev).
Proof.
  intros Hprev He1 Hd1 He2 Hd2.
  pose proof (handleChargerData_records E1 d1 ip prev He1 Hd1 Hprev) as H1.
  pose proof (upsert_records ip d1 prev Hd1 Hprev) as Hrec1.
  pose proof (handleChargerData_records E2 d2 ip _ He2 Hd2 Hrec1) as H2.
  pose proof (upsert_position ip d1 prev Hd1) as Hpos.
  assert (Hreg : upsert ip d2 (upsert ip d1 prev) =
                 <[position ip prev := d2]> (upsert ip d1 prev)).
  { unfold upsert at 1. now rewrite Hpos. }
  assert (Hother : forall j, j <> position ip prev ->
                             upsert ip d1 prev !! j = prev !! j).
  { intros j Hj. unfold upsert. unfold position in Hj.
    destruct (index_of ip prev) as [i|] eqn:Ei; simpl in Hj.
    - now rewrite list_lookup_insert_ne by congruence.
    - destruct (decide (j < length prev)) as [Hlt|Hge].
      + now rewrite lookup_app_l.
      + rewrite !lookup_ge_None_2; [reflexivity | lia |].
        rewrite length_app. cbn. lia. }
  exists (<[position ip prev := d2]> (upsert ip d1 prev)).
  split; [| split; [| split; [| split]]].
  - cbn [apply_events]. now rewrite H1, bind_Ok, H2, bind_Ok, Hreg.
  - apply list_lookup_insert_eq. now apply (index_of_lt ip).
  - intros j Hj. rewrite list_lookup_insert_ne by congruence. now apply Hother.
  - intros Hnew. apply index_of_None in Hnew.
    split; [unfold position; now rewrite Hnew |].
    rewrite H1. unfold upsert. now rewrite Hnew.
  - intros Hnd j c Hj Hc.
    destruct (decide (j = position ip prev)) as [|Hne]; [assumption | exfalso].
    rewrite list_lookup_insert_ne in Hj by congruence.
    rewrite Hother in Hj by exact Hne.
    unfold position in Hne.
    destruct (index_of ip prev) as [i|] eqn:Ei; simpl in Hne.
    + destruct (index_of_Some ip prev i Ei) as (x & Hx & Hxip).
      apply Hne. symmetry. exact (keys_NoDup_lookup prev i j x c ip Hnd Hx Hj Hxip Hc).
    + apply index_of_None in Ei. apply Ei, elem_of_keys.
      exists c. split; [| exact Hc]. apply list_elem_of_lookup. eauto.
Qed.

Lemma apply_events_keys (events : list value) (l : list value) :
  Forall (fun m => is_Some (event_ip m)) events ->
  records l -> NoDup (keys l) ->
  exists reg,
    apply_events number_eq events (VArray l) = Ok (VArray reg)
    /\ records reg /\ NoDup (keys reg)
    /\ (forall k, k ∈ keys reg <-> k ∈ keys l \/ k ∈ omap event_ip events).
Proof.
  intros Hev. revert l.
  induction Hev as [|m events [ip Hip] _ IH]; intros l Hl Hnd.
  - exists l. repeat split; [assumption.. | |].
    + now left.
    + intros [H|H]; [assumption | now apply elem_of_nil in H].
  - destruct (event_ip_Some m ip Hip) as (d & Hd & Hdip).
    pose proof (upsert_keys ip d l Hdip) as Hkeys.
    assert (Hnd1 : NoDup (keys (upsert ip d l))).
    { rewrite Hkeys. destruct (decide (ip ∈ keys l)) as [|Hn]; [assumption |].
      apply NoDup_app. repeat split; [assumption | | apply NoDup_singleton].
      intros x Hx Hx'. apply list_elem_of_singleton in Hx' as ->. contradiction. }
    destruct (IH (upsert ip d l) (upsert_records ip d l Hdip Hl) Hnd1)
      as (reg & Hrun & Hrec & Hndr & Hiff).
    exists reg. split; [| split; [assumption | split; [assumption |]]].
    + cbn [apply_events].
      now rewrite (handleChargerData_records m d ip l Hd Hdip Hl), bind_Ok.
    + intros k. rewrite Hiff, Hkeys. cbn [omap list_omap]. rewrite Hip.
      rewrite elem_of_cons.
      destruct (decide (ip ∈ keys l)) as [Hin|Hn].
      * split; [tauto |]. intros [?|[->|?]]; tauto.
      * rewrite elem_of_app, list_elem_of_singleton. tauto.
Qed.

(** C7.  After any sequence of well-formed events, applied in order to
    the empty registry, the registry has as many entries as there are
    distinct [ip] values in the sequence, and no two entries share a
    key. *)
Theorem registry_size_is_distinct_ips (events : list value) :
  Forall (fun m => is_Some (event_ip m)) events ->
  exists reg,
    apply_events number_eq events (VArray []) = Ok (VArray reg)
    /\ length reg = size (list_to_set (omap event_ip events) : gset string)
    /\ NoDup (keys reg).
Proof.
  intros Hev.
  destruct (apply_events_keys events [] Hev (Forall_nil_2 _) (NoDup_nil_2))
    as (reg & Hrun & Hrec & Hnd & Hiff).
  exists reg. split; [exact Hrun | split; [| exact Hnd]].
  rewrite <- (keys_length reg Hrec).
  rewrite <- (size_list_to_set (C := gset string) (keys reg) Hnd).
  f_equal. apply set_eq. intros k. rewrite !elem_of_list_to_set, Hiff.
  split; [intros [H|H]; [now apply elem_of_nil in H | exact H] | now right].
Qed.

End Registry.

Lemma upsert_last_write_wins_witness :
  exists reg,
    apply_events String.eqb
      [update (record "10.0.0.5" "Charging"); update (record "10.0.0.5" "Preparing")]
      (VArray [record "10.0.0.5" "Available"; record "10.0.0.6" "Available"])
    = Ok (VArray reg)
    /\ reg !! 0 = Some (record "10.0.0.5" "Preparing")
    /\ reg !! 1 = Some (record "10.0.0.6" "Available").
Proof.
  destruct (upsert_last_write_wins String.eqb
              [record "10.0.0.5" "Available"; record "10.0.0.6" "Available"]
              (update (record "10.0.0.5" "Charging"))
              (update (record "10.0.0.5" "Preparing"))
              (record "10.0.0.5" "Charging") (record "10.0.0.5" "Preparing") "10.0.0.5")
    as (reg & Hrun & Hpos & Hother & _).
  - repeat (constructor; [eexists; reflexivity |]). constructor.
  - reflexivity.
  - reflexivity.
  - reflexivity.
  - reflexivity.
  - exists reg. split; [exact Hrun | split; [exact Hpos |]].
    rewrite (Hother 1); [reflexivity | discriminate].
Defined.

Example new_ip_is_appended :
  apply_events String.eqb
    [update (record "10.0.0.7" "Charging"); update (record "10.0.0.7" "Preparing")]
    (VArray [record "10.0.0.5" "Available"; record "10.0.0.6" "Available"])
  = Ok (VArray [record "10.0.0.5" "Available"; record "10.0.0.6" "Available";
                record "10.0.0.7" "Preparing"]).
Proof. reflexivity. Qed.

Lemma registry_size_is_distinct_ips_witness :
  exists reg,
    apply_events String.eqb
      [update (record "10.0.0.5" "Available"); update (record "10.0.0.6" "Charging");
       update (record "10.0.0.5" "Charging")]
      (VArray [])
    = Ok (VArray reg)
    /\ length reg = 2.
Proof.
  destruct (registry_size_is_distinct_ips String.eqb
              [update (record "10.0.0.5" "Available"); update (record "10.0.0.6" "Charging");
               update (record "10.0.0.5" "Charging")])
    as (reg & Hrun & Hlen & _).
  - repeat (constructor; [eexists; reflexivity |]). constructor.
  - exists reg. split; [exact Hrun |]. rewrite Hlen. vm_compute. reflexivity.
Defined.

(** What [fetchData] makes of payloads of another shape. *)
Example fetchData_null :
  fetchData String.eqb (Ok VNull) initial =
  {| chargers := VArray [];
     error := VString "TypeError: Cannot read properties of null (reading 'success')" |}.
Proof. reflexivity. Qed.

Example fetchData_without_devices :
  fetchData String.eqb (Ok (VObject [])) initial =
  {| chargers := VUndefined; error := VNull |}.
Proof. reflexivity. Qed.

(** *** Status icons *)

Lemma iconInfo_cases (k : string) :
  iconInfo k =
  match own_key k with
  | Some c => Entry c
  | None => if existsb (String.eqb k) Object_prototype then Inherited k else Entry unknown
  end.
Proof.
  unfold iconInfo, statusIcons_get.
  destruct (own_key k); [reflexivity |].
  now destruct (existsb (String.eqb k) Object_prototype).
Qed.

(** A status that, lower-cased and trimmed, names no property of
    [Object.prototype] gets its own entry, or the entry of [unknown]. *)
Lemma iconInfo_fallback (k : string) :
  existsb (String.eqb k) Object_prototype = false ->
  iconInfo k = Entry (default unknown (own_key k)).
Proof. intros H. rewrite iconInfo_cases, H. now destruct (own_key k). Qed.

Example charging_is_charging :
  status_icon (record "1.2.3.4" "Charging") = Ok (Entry charging).
Proof. reflexivity. Qed.

Example faulted_is_unknown :
  status_icon (record "1.2.3.4" " Faulted ") = Ok (Entry unknown).
Proof. reflexivity. Qed.

(** Lower-casing leaves none of the letters A to Z, and trimming adds
    none. *)
Lemma toLowerCase_no_upper (s : string) : has_upper (toLowerCase s) = false.
Proof.
  remember (String.length s) as n eqn:Hn.
  assert (Hle : String.length s <= n) by lia. clear Hn.
  revert s Hle. induction n as [|n IH]; intros [|a r] Hle; try reflexivity;
    cbn [String.length] in Hle; [lia |].
  cbn [toLowerCase].
  destruct ((65 <=? N_of_ascii a)%N && (N_of_ascii a <=? 90)%N) eqn:Ha.
  - cbn [has_upper]. rewrite IH by lia. rewrite orb_false_r.
    apply andb_true_iff in Ha as [H1 H2].
    apply N.leb_le in H1. apply N.leb_le in H2.
    unfold is_upper. rewrite N_ascii_embedding by lia.
    apply andb_false_iff. right. apply N.leb_gt. lia.
  - assert (Hdef : has_upper (String a (toLowerCase r)) = false).
    { cbn [has_upper]. unfold is_upper. rewrite Ha. apply IH. lia. }
    destruct r as [|b [|c r']]; try exact Hdef.
    destruct ((N_of_ascii a =? 226)%N && (N_of_ascii b =? 132)%N && (N_of_ascii c =? 170)%N);
      [| exact Hdef].
    cbn [has_upper]. apply IH. cbn [String.length] in Hle. lia.
Qed.

Lemma strip_no_upper (w2 : ascii -> ascii -> bool) (w3 : ascii -> ascii -> ascii -> bool)
  (s : string) :
  has_upper s = false -> has_upper (strip w2 w3 s) = false.
Proof.
  remember (String.length s) as n eqn:Hn.
  assert (Hle : String.length s <= n) by lia. clear Hn.
  revert s Hle. induction n as [|n IH]; intros [|a r] Hle Hs; try reflexivity;
    cbn [String.length] in Hle; [lia |].
  cbn [strip]. cbn [has_upper] in Hs. apply orb_false_iff in Hs as Hs'. destruct Hs' as [Ha Hr].
  destruct (ws1 a); [apply IH; [lia | exact Hr] |].
  destruct r as [|b r2]; [exact Hs |].
  cbn [has_upper] in Hr. apply orb_false_iff in Hr as [Hb Hr2].
  cbn [String.length] in Hle.
  destruct (w2 a b); [apply IH; [lia | exact Hr2] |].
  destruct r2 as [|c r3]; [exact Hs |].
  cbn [has_upper] in Hr2. apply orb_false_iff in Hr2 as [Hc Hr3].
  cbn [String.length] in Hle.
  destruct (w3 a b c); [apply IH; [lia | exact Hr3] | exact Hs].
Qed.

Lemma has_upper_rev_app (s acc : string) :
  has_upper (String.rev_app s acc) = has_upper s || has_upper acc.
Proof.
  revert acc. induction s as [|a s IH]; intros acc; [reflexivity |].
  cbn [String.rev_app has_upper]. rewrite IH. cbn [has_upper].
  now destruct (is_upper a), (has_upper s), (has_upper acc).
Qed.

Lemma has_upper_rev (s : string) : has_upper (String.rev s) = has_upper s.
Proof. unfold String.rev. rewrite has_upper_rev_app. cbn. apply orb_false_r. Qed.

Lemma trim_no_upper (s : string) : has_upper s = false -> has_upper (trim s) = false.
Proof.
  intros Hs. unfold trim, trimEnd, trimStart.
  rewrite has_upper_rev. apply strip_no_upper.
  rewrite has_upper_rev. now apply strip_no_upper.
Qed.

(** Of the names [statusIcons] inherits, a status can only reach the two
    written without capitals; every other status gets its own entry or the
    entry of [unknown]. *)
Lemma status_lookup_cases (s : string) :
  let k := trim (toLowerCase s) in
  iconInfo k = Entry (default unknown (own_key k))
  \/ (k = "constructor" /\ iconInfo k = Inherited "constructor")
  \/ (k = "__proto__" /\ iconInfo k = Inherited "__proto__").
Proof.
  intros k.
  assert (Hk : has_upper k = false) by apply trim_no_upper, toLowerCase_no_upper.
  destruct (existsb (String.eqb k) Object_prototype) eqn:Hex;
    [| left; now apply iconInfo_fallback].
  apply existsb_exists in Hex as (name & Hin & Heq).
  apply String.eqb_eq in Heq. subst name.
  unfold Object_prototype in Hin. cbn [In] in Hin.
  repeat (destruct Hin as [Hin|Hin];
          [try (rewrite <- Hin in Hk; discriminate Hk);
           try (right; left; split; [now symmetry | now rewrite <- Hin]);
           try (right; right; split; [now symmetry | now rewrite <- Hin]) |]).
  contradiction.
Qed.

(** C9 fails on the code.  The status ["Constructor"] is not one of the
    four known ones, and the lookup gives the inherited property
    [constructor] of [statusIcons], which is truthy, in place of the
    [unknown] entry; the same for ["__proto__"]. *)
Theorem inherited_name_is_not_unknown :
  own_key (trim (toLowerCase "Constructor")) = None
  /\ status_icon (record "1.2.3.4" "Constructor") = Ok (Inherited "constructor")
  /\ status_icon (record "1.2.3.4" "Constructor") <> Ok (Entry unknown)
  /\ status_icon (record "1.2.3.4" "__proto__") = Ok (Inherited "__proto__").
Proof. repeat split; try reflexivity. vm_compute. discriminate. Qed.

End RendererProps.

(** * From the monitor's output to the registry *)
Module BridgeProps.
Import Main Renderer.

Lemma diagnostics_app (o1 o2 : list Effect) :
  diagnostics (o1 ++ o2) = (diagnostics o1 ++ diagnostics o2)%list.
Proof. apply omap_app. Qed.

Lemma sent_app (o1 o2 : list Effect) : sent (o1 ++ o2) = (sent o1 ++ sent o2)%list.
Proof. apply omap_app. Qed.

(** The monitor's handler treats the chunks one by one: what a list of
    chunks produces is what its parts produce, one after the other. *)
Lemma monitor_chunks_app (s : State) (p : nat) (chunks1 chunks2 : list string) :
  children s !! p = Some Monitor ->
  snd (run s (map (StdoutData p) (chunks1 ++ chunks2))) =
  (snd (run s (map (StdoutData p) chunks1)) ++ snd (run s (map (StdoutData p) chunks2)))%list.
Proof.
  intros Hp. rewrite !MainProps.run_monitor_chunks by exact Hp.
  cbn [snd]. apply flat_map_app.
Qed.

(** A chunk that does not decode changes nothing but the console. *)
Lemma undecodable_chunk (s : State) (p : nat) (bad : string) (err : Exn) :
  children s !! p = Some Monitor ->
  JSON.parse (Buffer.toString bad) = Throw err ->
  step s (StdoutData p bad) =
    (s, [Decode (Buffer.toString bad);
         ConsoleError [Str "Failed to parse Python stdout:"; Err err]]).
Proof.
  intros Hp Hbad. cbn [step]. rewrite Hp.
  unfold monitor_stdout_on_data. now rewrite Hbad.
Qed.

(** C3, as the code has it.  A chunk that does not decode is reported
    once on the console and skipped: the handlers stay as they are, and
    wherever the chunk falls among other chunks, what is sent to the
    renderer is what is sent without it, and the console gets the one
    report in between those of the chunks before and after.  While the
    window is open, a well-formed event in the next chunk reaches the
    renderer and is upserted into the registry, with one diagnostic in
    all. *)
Theorem malformed_chunk_is_isolated (number_eq : string -> string -> bool)
  (s : State) (p : nat) (bad good : string) (err : Exn) (message data : value)
  (ip : string) (prev : list value) :
  children s !! p = Some Monitor ->
  JSON.parse (Buffer.toString bad) = Throw err ->
  step s (StdoutData p bad) =
    (s, [Decode (Buffer.toString bad);
         ConsoleError [Str "Failed to parse Python stdout:"; Err err]])
  /\ (forall before after : list string,
        fst (run s (map (StdoutData p) (before ++ bad :: after))) = s
        /\ sent (snd (run s (map (StdoutData p) (before ++ bad :: after)))) =
             sent (snd (run s (map (StdoutData p) (before ++ after))))
        /\ diagnostics (snd (run s (map (StdoutData p) (before ++ bad :: after)))) =
             (diagnostics (snd (run s (map (StdoutData p) before)))
                ++ [Str "Failed to parse Python stdout:"; Err err]
                :: diagnostics (snd (run s (map (StdoutData p) after))))%list)
  /\ (mainWindow s = true ->
      JSON.parse (Buffer.toString good) = Ok message ->
      event_data message = Some data -> ip_of data = Some ip -> records prev ->
      diagnostics (snd (run s (map (StdoutData p) [bad; good]))) =
        [[Str "Failed to parse Python stdout:"; Err err]]
      /\ sent (snd (run s (map (StdoutData p) [bad; good]))) = [message]
      /\ apply_events number_eq (sent (snd (run s (map (StdoutData p) [bad; good]))))
           (VArray prev) = Ok (VArray (upsert ip data prev))).
Proof.
  intros Hp Hbad. split; [now apply undecodable_chunk | split].
  - intros before after.
    rewrite !MainProps.run_monitor_chunks by exact Hp. cbn [fst snd].
    rewrite !flat_map_app. cbn [flat_map].
    rewrite !sent_app, !diagnostics_app.
    assert (Hone : monitor_stdout_on_data (mainWindow s) bad =
                   [Decode (Buffer.toString bad);
                    ConsoleError [Str "Failed to parse Python stdout:"; Err err]]).
    { unfold monitor_stdout_on_data. now rewrite Hbad. }
    rewrite Hone. split; [reflexivity | split; reflexivity].
  - intros Hw Hgood Hev Hip Hprev.
    rewrite MainProps.run_monitor_chunks by exact Hp.
    cbn [fst snd flat_map]. unfold monitor_stdout_on_data.
    rewrite Hw, Hbad, Hgood. cbn.
    split; [reflexivity | split; [reflexivity |]].
    now rewrite (RendererProps.handleChargerData_records number_eq message data ip prev).
Qed.

Lemma malformed_chunk_is_isolated_witness :
  let chunks :=
    ["{a}" ++ LF;
     quoted "{'event':'charger_status_update','data':{'ip':'10.0.0.5'}}" ++ LF] in
  exists err,
    JSON.parse (Buffer.toString ("{a}" ++ LF)) = Throw err
    /\ diagnostics (snd (run monitoring (map (StdoutData 0) chunks))) =
         [[Str "Failed to parse Python stdout:"; Err err]]
    /\ apply_events String.eqb (sent (snd (run monitoring (map (StdoutData 0) chunks))))
         (VArray []) = Ok (VArray [VObject [("ip", VString "10.0.0.5")]]).
Proof.
  intros chunks. eexists. split; [vm_compute; reflexivity |].
  destruct (malformed_chunk_is_isolated String.eqb monitoring 0
              ("{a}" ++ LF)
              (quoted "{'event':'charger_status_update','data':{'ip':'10.0.0.5'}}" ++ LF)
              _
              (update (VObject [("ip", VString "10.0.0.5")]))
              (VObject [("ip", VString "10.0.0.5")]) "10.0.0.5" []
              eq_refl eq_refl)
    as (_ & _ & H).
  destruct H as (Hdiag & _ & Hreg); try reflexivity; [constructor |].
  split; [exact Hdiag | exact Hreg].
Defined.

(** C3, as stated, fails.  When the malformed line and the well-formed
    line arrive in one chunk, the chunk does not decode: there is one
    diagnostic, nothing is sent, and the registry gets no entry. *)
Lemma lines_in_one_chunk_are_lost :
  let chunk :=
    "{a}" ++ LF
      ++ quoted "{'event':'charger_status_update','data':{'ip':'10.0.0.5'}}" ++ LF in
  let out := snd (run monitoring [StdoutData 0 chunk]) in
  length (diagnostics out) = 1
  /\ sent out = []
  /\ apply_events String.eqb (sent out) (VArray []) = Ok (VArray [])
  /\ ~ (exists d, apply_events String.eqb (sent out) (VArray []) = Ok (VArray [d])).
Proof.
  repeat split; try (vm_compute; reflexivity).
  intros [d H]. vm_compute in H. discriminate.
Qed.

End BridgeProps.

(** * More on the main process *)
Module MainExtra.
Import Main.

(** *** The one-shot call: accumulation and isolation *)

Lemma stdout_text_chunks (chunks : list string) :
  stdout_text (map Stdout chunks) = joined (map Buffer.toString chunks)
  /\ stderr_text (map Stdout chunks) = "".
Proof.
  induction chunks as [|c chunks [IH1 IH2]]; [split; reflexivity |].
  cbn [map stdout_text stderr_text joined]. now rewrite IH1, IH2.
Qed.




(** A chunk that ends inside a character changes the outcome: the two
    bytes of U+00E9, one at the end of a chunk and one at the start of the
    next, are collected as U+FFFD twice. *)
Example one_shot_split_character :
  settled (snd (run init
                  (one_shot init
                     [Stdout (String "034" (String "195" (String "169" (String "034" ""))))]
                     (Some 0%Z)))) =
    [(0, Fulfilled (VString (String "195" (String "169" ""))))]
  /\ settled (snd (run init
                     (one_shot init
                        [Stdout (String "034" (String "195" ""));
                         Stdout (String "169" (String "034" ""))]
                        (Some 0%Z)))) =
       [(0, Fulfilled (VString (Buffer.replacement ++ Buffer.replacement)))].
Proof. split; vm_compute; reflexivity. Qed.

Lemma own_output_step (s : State) (e : Event) (p : nat) (data errorData : string) :
  children s !! p = Some (Snapshot data errorData) ->
  p < spawned s ->
  closes p e = false ->
  children (fst (step s e)) !! p =
    Some (Snapshot (data ++ own_stdout p [e]) (errorData ++ own_stderr p [e]))
  /\ p < spawned (fst (step s e)).
Proof.
  intros Hp Hlt He.
  destruct e as [| |q chunk|q chunk|q code| |q err]; cbn [step own_stdout own_stderr].
  - cbn. rewrite lookup_insert_ne by lia. rewrite !append_nil_r. split; [exact Hp | lia].
  - unfold start_monitoring. destruct (pythonProcess s); cbn;
      rewrite ?lookup_insert_ne by lia; rewrite !append_nil_r; split; (exact Hp || lia).
  - destruct (Nat.eqb_spec q p) as [->|Hq].
    + rewrite Hp. cbn. rewrite lookup_insert_eq, !append_nil_r. split; [reflexivity | lia].
    + destruct (children s !! q) as [[d' e'|]|]; cbn;
        rewrite ?lookup_insert_ne by exact Hq; rewrite !append_nil_r;
        split; (exact Hp || lia).
  - destruct (Nat.eqb_spec q p) as [->|Hq].
    + rewrite Hp. cbn. rewrite lookup_insert_eq, !append_nil_r. split; [reflexivity | lia].
    + destruct (children s !! q) as [[d' e'|]|]; cbn;
        rewrite ?lookup_insert_ne by exact Hq; rewrite !append_nil_r;
        split; (exact Hp || lia).
  - cbn [closes] in He. destruct (Nat.eqb_spec q p) as [->|Hq]; [discriminate |].
    destruct (children s !! q) as [[d' e'|]|]; cbn;
      rewrite ?lookup_delete_ne by exact Hq; rewrite !append_nil_r;
      split; (exact Hp || lia).
  - cbn. rewrite !append_nil_r. split; [exact Hp | lia].
  - destruct (children s !! q); cbn; rewrite !append_nil_r; split; (exact Hp || lia).
Qed.

Lemma own_stdout_cons (p : nat) (e : Event) (es : list Event) :
  own_stdout p (e :: es) = own_stdout p [e] ++ own_stdout p es.
Proof.
  destruct e as [| |q chunk|q chunk|q code| |q err]; cbn [own_stdout]; try reflexivity.
  destruct (q =? p)%nat; [| reflexivity]. now rewrite append_nil_r.
Qed.

Lemma own_stderr_cons (p : nat) (e : Event) (es : list Event) :
  own_stderr p (e :: es) = own_stderr p [e] ++ own_stderr p es.
Proof.
  destruct e as [| |q chunk|q chunk|q code| |q err]; cbn [own_stderr]; try reflexivity.
  destruct (q =? p)%nat; [| reflexivity]. now rewrite append_nil_r.
Qed.

(** X2.  A call's accumulators hold the text of the chunks its own child
    wrote, each chunk decoded on its own and appended in the order of
    arrival, and nothing else, whatever happens before the child closes:
    other calls, their output and exits, the monitor, ['start-monitoring'],
    the closing of the window, a child's ['error']; and the call is settled
    from that text. *)
Theorem call_accumulates_own_output (es : list Event) (s : State) (p : nat)
  (data errorData : string) :
  children s !! p = Some (Snapshot data errorData) ->
  p < spawned s ->
  forallb (fun e => negb (closes p e)) es = true ->
  children (fst (run s es)) !! p =
    Some (Snapshot (data ++ own_stdout p es) (errorData ++ own_stderr p es))
  /\ forall code,
       settled (snd (step (fst (run s es)) (Close p code))) =
         [(p, snapshot_on_close code (data ++ own_stdout p es) (errorData ++ own_stderr p es))].
Proof.
  intros Hp Hlt Hes.
  assert (Hgoal : children (fst (run s es)) !! p =
                  Some (Snapshot (data ++ own_stdout p es) (errorData ++ own_stderr p es))).
  { revert s data errorData Hp Hlt.
    induction es as [|e es IH]; intros s data errorData Hp Hlt.
    - cbn. now rewrite !append_nil_r.
    - cbn [forallb] in Hes. apply andb_true_iff in Hes as [He Hes].
      apply negb_true_iff in He.
      specialize (IH Hes). cbn [run].
      destruct (own_output_step s e p data errorData Hp Hlt He) as [Hp1 Hlt1].
      destruct (step s e) as [s1 o1]. cbn [fst] in Hp1, Hlt1.
      specialize (IH s1 _ _ Hp1 Hlt1).
      destruct (run s1 es) as [s2 o2]. cbn [fst] in IH |- *.
      now rewrite IH, !append_assoc, <- own_stdout_cons, <- own_stderr_cons. }
  split; [exact Hgoal |].
  intros code. cbn [step]. rewrite Hgoal. cbn [snd]. now destruct (nonzero code).
Qed.

Lemma call_accumulates_own_output_witness :
  settled (snd (step (fst (run monitoring
                             [GetChargerData; GetChargerData; StdoutData 2 "[1";
                              StdoutData 1 (quoted "{'a'"); StdoutData 0 "7";
                              StderrData 2 "x"; Close 2 (Some 3%Z); StartMonitoring;
                              StdoutData 1 ":1}"]))
                  (Close 1 (Some 0%Z)))) =
    [(1, Fulfilled (VObject [("a", VNumber "1")]))].
Proof.
  exact (proj2 (call_accumulates_own_output
                  [GetChargerData; StdoutData 2 "[1"; StdoutData 1 (quoted "{'a'");
                   StdoutData 0 "7"; StderrData 2 "x"; Close 2 (Some 3%Z); StartMonitoring;
                   StdoutData 1 ":1}"]
                  (fst (step monitoring GetChargerData)) 1 "" ""
                  eq_refl (le_n 2) eq_refl) (Some 0%Z)).
Defined.

(** *** The promise of a call *)

Lemma settles_app (p : nat) (o1 o2 : list Effect) :
  settles p (o1 ++ o2) = settles p o1 + settles p o2.
Proof.
  unfold settles, settled. now rewrite omap_app, List.filter_app, length_app.
Qed.

Lemma settles_step_other (s : State) (e : Event) (p : nat) :
  closes p e = false -> settles p (snd (step s e)) = 0.
Proof.
  intros He. destruct e as [| |q chunk|q chunk|q code| |q err]; cbn [step].
  - reflexivity.
  - unfold start_monitoring. now destruct (pythonProcess s).
  - destruct (children s !! q) as [[d' e'|]|]; cbn [snd]; try reflexivity.
    unfold monitor_stdout_on_data. now destruct (JSON.parse (Buffer.toString chunk)), (mainWindow s).
  - now destruct (children s !! q) as [[d' e'|]|].
  - cbn [closes] in He.
    destruct (children s !! q) as [[d' e'|]|]; cbn [snd]; try reflexivity.
    unfold settles. destruct (nonzero code); cbn; now rewrite He.
  - now destruct (pythonProcess s).
  - now destruct (children s !! q).
Qed.

Lemma absent_step (s : State) (e : Event) (p : nat) :
  children s !! p = None -> p < spawned s ->
  children (fst (step s e)) !! p = None
  /\ p < spawned (fst (step s e))
  /\ settles p (snd (step s e)) = 0.
Proof.
  intros Hp Hlt. split; [| split].
  - destruct e as [| |q chunk|q chunk|q code| |q err]; cbn [step].
    + cbn. now rewrite lookup_insert_ne by lia.
    + unfold start_monitoring. destruct (pythonProcess s); cbn; [exact Hp |].
      now rewrite lookup_insert_ne by lia.
    + destruct (children s !! q) as [[d' e'|]|] eqn:Hq; cbn; try exact Hp.
      now rewrite lookup_insert_ne by congruence.
    + destruct (children s !! q) as [[d' e'|]|] eqn:Hq; cbn; try exact Hp.
      now rewrite lookup_insert_ne by congruence.
    + destruct (children s !! q) as [[d' e'|]|] eqn:Hq; cbn; try exact Hp;
        (destruct (decide (q = p)) as [->|Hne];
         [apply lookup_delete_eq | now rewrite lookup_delete_ne by exact Hne]).
    + exact Hp.
    + now destruct (children s !! q).
  - destruct e as [| |q chunk|q chunk|q code| |q err]; cbn [step].
    + cbn. lia.
    + unfold start_monitoring. destruct (pythonProcess s); cbn; lia.
    + now destruct (children s !! q) as [[d' e'|]|].
    + now destruct (children s !! q) as [[d' e'|]|].
    + now destruct (children s !! q) as [[d' e'|]|].
    + exact Hlt.
    + now destruct (children s !! q).
  - destruct (closes p e) eqn:He; [| now apply settles_step_other].
    destruct e as [| |q chunk|q chunk|q code| |q err]; try discriminate.
    cbn [closes] in He. apply Nat.eqb_eq in He as ->.
    cbn [step]. now rewrite Hp.
Qed.

Lemma absent_never_settles (es : list Event) (s : State) (p : nat) :
  children s !! p = None -> p < spawned s -> settles p (snd (run s es)) = 0.
Proof.
  revert s. induction es as [|e es IH]; intros s Hp Hlt; [reflexivity |].
  cbn [run]. destruct (absent_step s e p Hp Hlt) as (Hp1 & Hlt1 & H0).
  destruct (step s e) as [s1 o1]. cbn [fst snd] in *.
  specialize (IH s1 Hp1 Hlt1). destruct (run s1 es) as [s2 o2]. cbn [snd] in *.
  rewrite settles_app. lia.
Qed.

(** X3.  The promise of a call is settled when its child closes, once, and at
    no other moment: never before the ['close'] of its child, whatever the
    child has written, and never a second time. *)
Theorem call_settles_once_at_close (es : list Event) (s : State) (p : nat)
  (data errorData : string) :
  children s !! p = Some (Snapshot data errorData) ->
  p < spawned s ->
  settles p (snd (run s es)) = if existsb (closes p) es then 1 else 0.
Proof.
  revert s data errorData.
  induction es as [|e es IH]; intros s data errorData Hp Hlt; [reflexivity |].
  cbn [run existsb]. destruct (closes p e) eqn:He.
  - destruct e as [| |q chunk|q chunk|q code| |q err]; try discriminate.
    cbn [closes] in He. apply Nat.eqb_eq in He as ->.
    cbn [step]. rewrite Hp.
    pose proof (absent_never_settles es (set_children s (delete p (children s))) p) as H0.
    destruct (run _ es) as [s2 o2]. cbn [snd orb] in *.
    rewrite settles_app, H0; [| cbn; apply lookup_delete_eq | exact Hlt].
    unfold settles. destruct (nonzero code); cbn; now rewrite Nat.eqb_refl.
  - destruct (own_output_step s e p data errorData Hp Hlt He) as [Hp1 Hlt1].
    pose proof (settles_step_other s e p He) as H0.
    destruct (step s e) as [s1 o1]. cbn [fst snd] in *.
    specialize (IH s1 _ _ Hp1 Hlt1). destruct (run s1 es) as [s2 o2]. cbn [snd orb] in *.
    rewrite settles_app, H0, IH. reflexivity.
Qed.

Lemma call_settles_once_at_close_witness :
  settles 1 (snd (run monitoring
                    [GetChargerData; StdoutData 1 "{}"; StdoutData 1 "{}";
                     Close 1 (Some 0%Z); StdoutData 1 "{}"; Close 1 (Some 0%Z)])) = 1.
Proof.
  exact (call_settles_once_at_close
           [StdoutData 1 "{}"; StdoutData 1 "{}"; Close 1 (Some 0%Z);
            StdoutData 1 "{}"; Close 1 (Some 0%Z)]
           (fst (step monitoring GetChargerData)) 1 "" "" eq_refl (le_n 2)).
Defined.

(** X4.  Every ['get-charger-data'] request spawns a child of its own, in every
    state: no request is refused, queued or served by a running child. *)
Theorem every_request_spawns (es : list Event) (s : State) :
  length (one_shot_spawns (snd (run s es))) = length (List.filter is_request es).
Proof.
  revert s. induction es as [|e es IH]; intros s; [reflexivity |].
  cbn [run List.filter]. specialize (IH (fst (step s e))).
  assert (Hstep : length (one_shot_spawns (snd (step s e))) = if is_request e then 1 else 0).
  { destruct e as [| |q chunk|q chunk|q code| |q err]; cbn [step is_request].
    - reflexivity.
    - unfold start_monitoring. now destruct (pythonProcess s).
    - destruct (children s !! q) as [[d' e'|]|]; cbn [snd]; try reflexivity.
      unfold monitor_stdout_on_data. now destruct (JSON.parse (Buffer.toString chunk)), (mainWindow s).
    - now destruct (children s !! q) as [[d' e'|]|].
    - destruct (children s !! q) as [[d' e'|]|]; cbn [snd]; try reflexivity.
      now destruct (nonzero code).
    - now destruct (pythonProcess s).
    - now destruct (children s !! q). }
  destruct (step s e) as [s1 o1]. cbn [fst snd] in *.
  destruct (run s1 es) as [s2 o2]. cbn [snd] in *.
  unfold one_shot_spawns in *. rewrite omap_app, length_app, Hstep, IH.
  now destruct (is_request e).
Qed.

(** *** The monitor: exit, restart and teardown *)



Lemma owned_step (s : State) (e : Event) :
  quiet e = true -> supervised s -> owned s -> owned (fst (step s e)).
Proof.
  unfold owned. intros He (Huniq & _ & Hfresh) Hown.
  destruct e as [| |q chunk|q chunk|q code| |q err]; try discriminate; cbn [step].
  - unfold start_monitoring. destruct (pythonProcess s) as [h|] eqn:Hpy; cbn.
    + intros p Hp. rewrite Hpy. now apply Hown.
    + intros p Hp. apply lookup_insert_Some in Hp as [[<- _]|[_ Hp]]; [reflexivity |].
      apply Hown in Hp. congruence.
  - destruct (children s !! q) as [[d' e'|]|]; cbn; try exact Hown.
    intros p Hp. apply lookup_insert_Some in Hp as [[_ ?]|[_ Hp]]; [discriminate | eauto].
  - destruct (children s !! q) as [[d' e'|]|]; cbn; try exact Hown.
    intros p Hp. apply lookup_insert_Some in Hp as [[_ ?]|[_ Hp]]; [discriminate | eauto].
  - destruct (children s !! q) as [[d' e'|]|] eqn:Hq; cbn; try exact Hown.
    + intros p Hp. apply lookup_delete_Some in Hp as [_ Hp]. eauto.
    + intros p Hp. apply lookup_delete_Some in Hp as [Hne Hp]. destruct Hne. eauto.
  - now destruct (children s !! q).
Qed.

Lemma quiet_window_open (e : Event) : quiet e = true -> window_open e = true.
Proof. now destruct e. Qed.

Lemma owned_run (es : list Event) (s : State) :
  forallb quiet es = true -> supervised s -> owned s ->
  supervised (fst (run s es)) /\ owned (fst (run s es)).
Proof.
  revert s. induction es as [|e es IH]; intros s Hes Hs Ho; [now split |].
  cbn [forallb] in Hes. apply andb_true_iff in Hes as [He Hes]. cbn [run].
  pose proof (MainProps.supervised_step s e (quiet_window_open e He) Hs) as Hs1.
  pose proof (owned_step s e He Hs Ho) as Ho1.
  destruct (step s e) as [s1 o1]. cbn [fst] in *.
  specialize (IH s1 Hes Hs1 Ho1). now destruct (run s1 es).
Qed.

(** X6.  As long as no ['get-charger-data'] request has been made, closing the
    window kills the running monitor, and only it. *)
Theorem window_closed_kills_monitor (es : list Event) (p : nat) :
  forallb quiet es = true ->
  children (fst (run init es)) !! p = Some Monitor ->
  killed (snd (step (fst (run init es)) WindowClosed)) = [p]
  /\ pythonProcess (fst (step (fst (run init es)) WindowClosed)) = None
  /\ mainWindow (fst (step (fst (run init es)) WindowClosed)) = false.
Proof.
  intros Hes Hp.
  destruct (owned_run es init Hes MainProps.supervised_init) as [_ Hown].
  { intros q Hq. cbn in Hq. now rewrite lookup_empty in Hq. }
  cbn [step fst snd]. now rewrite (Hown p Hp).
Qed.

Lemma window_closed_kills_monitor_witness :
  killed (snd (step (fst (run init [StartMonitoring; Close 0 (Some 1%Z); StartMonitoring;
                                    StdoutData 1 "{}"]))
                 WindowClosed)) = [1].
Proof.
  apply (window_closed_kills_monitor
           [StartMonitoring; Close 0 (Some 1%Z); StartMonitoring; StdoutData 1 "{}"] 1);
    reflexivity.
Defined.

(** *** The monitor's streams *)

Lemma monitor_effects (w : bool) (chunks : list string) :
  sent (flat_map (monitor_stdout_on_data w) chunks) = (if w then omap decoded chunks else [])
  /\ length (diagnostics (flat_map (monitor_stdout_on_data w) chunks)) =
       (if w then length (omap undecoded chunks) else length chunks)
  /\ (w = true ->
      diagnostics (flat_map (monitor_stdout_on_data w) chunks) = omap undecoded chunks)
  /\ length (omap decoded chunks) + length (omap undecoded chunks) = length chunks.
Proof.
  induction chunks as [|c chunks (IH1 & IH2 & IH3 & IH4)]; [now destruct w |].
  cbn [flat_map omap list_omap]. rewrite BridgeProps.sent_app, !BridgeProps.diagnostics_app, length_app, IH1, IH2.
  unfold monitor_stdout_on_data, decoded, undecoded in *.
  destruct (JSON.parse (Buffer.toString c)) as [m|err], w; cbn; repeat split; try lia; try discriminate;
    intros _; now rewrite IH3.
Qed.

(** X7.  With the window open the renderer is sent the values of the chunks
    that decode, in the order of the chunks, each once; the other chunks are
    each reported once, so every chunk is either sent or reported. *)
Theorem monitor_sends_in_order (s : State) (p : nat) (chunks : list string) :
  mainWindow s = true ->
  children s !! p = Some Monitor ->
  sent (snd (run s (map (StdoutData p) chunks))) = omap decoded chunks
  /\ diagnostics (snd (run s (map (StdoutData p) chunks))) = omap undecoded chunks
  /\ length (omap decoded chunks) + length (omap undecoded chunks) = length chunks.
Proof.
  intros Hw Hp. rewrite MainProps.run_monitor_chunks by exact Hp. rewrite Hw. cbn [snd].
  destruct (monitor_effects true chunks) as (H1 & _ & H3 & H4).
  split; [exact H1 | split; [now apply H3 | exact H4]].
Qed.

Lemma monitor_sends_in_order_witness :
  sent (snd (run monitoring (map (StdoutData 0) ["1"; "{a}"; "[2]"; ""; "null"]))) =
    [VNumber "1"; VArray [VNumber "2"]; VNull].
Proof.
  refine (eq_trans
            (proj1 (monitor_sends_in_order monitoring 0 ["1"; "{a}"; "[2]"; ""; "null"]
                      eq_refl eq_refl)) _).
  reflexivity.
Defined.

(** X8.  Once the window is closed, a monitor that is still running reaches
    nobody: every chunk, decodable or not, ends in a console diagnostic
    and nothing is sent. *)
Theorem monitor_without_window (s : State) (p : nat) (chunks : list string) :
  mainWindow s = false ->
  children s !! p = Some Monitor ->
  sent (snd (run s (map (StdoutData p) chunks))) = []
  /\ length (diagnostics (snd (run s (map (StdoutData p) chunks)))) = length chunks
  /\ fst (run s (map (StdoutData p) chunks)) = s.
Proof.
  intros Hw Hp. rewrite MainProps.run_monitor_chunks by exact Hp. rewrite Hw. cbn [fst snd].
  destruct (monitor_effects false chunks) as (H1 & H2 & _).
  now repeat split.
Qed.

Lemma monitor_without_window_witness :
  sent (snd (run (fst (run monitoring [GetChargerData; WindowClosed]))
               (map (StdoutData 0) [quoted "{'event':'charger_status_update'}"]))) = [].
Proof.
  apply (monitor_without_window (fst (run monitoring [GetChargerData; WindowClosed])) 0
           [quoted "{'event':'charger_status_update'}"]);
    reflexivity.
Defined.



End MainExtra.

(** * More on the renderer *)
Module RendererExtra.
Import Renderer.

Lemma upsert_lookup (ip : string) (d : value) (l : list value) :
  upsert ip d l !! position ip l = Some d.
Proof.
  unfold upsert, position. destruct (index_of ip l) as [i|] eqn:Ei; simpl.
  - apply list_lookup_insert_eq. now apply (RendererProps.index_of_lt ip).
  - now apply list_lookup_middle.
Qed.

Lemma upsert_idempotent (ip : string) (d : value) (l : list value) :
  ip_of d = Some ip -> upsert ip d (upsert ip d l) = upsert ip d l.
Proof.
  intros Hd. unfold upsert at 1. rewrite (RendererProps.upsert_position ip d l Hd).
  apply list_insert_id, upsert_lookup.
Qed.

Lemma lookup_ip_upsert_same (ip : string) (d : value) (l : list value) :
  ip_of d = Some ip -> lookup_ip ip (upsert ip d l) = Some d.
Proof.
  intros Hd. unfold lookup_ip. rewrite (RendererProps.upsert_position ip d l Hd).
  apply upsert_lookup.
Qed.

Lemma index_of_insert_other (k : string) (d c : value) (l : list value) (i : nat) :
  l !! i = Some c -> ip_of c <> Some k -> ip_of d <> Some k ->
  index_of k (<[i := d]> l) = index_of k l.
Proof.
  revert i. induction l as [|x l IH]; intros [|i] Hi Hc Hd; try discriminate.
  - injection Hi as ->. change (<[0 := d]> (c :: l)) with (d :: l).
    cbn [index_of]. now rewrite !bool_decide_eq_false_2.
  - change (<[S i := d]> (x :: l)) with (x :: <[i := d]> l).
    cbn [index_of]. now rewrite (IH i Hi Hc Hd).
Qed.

Lemma index_of_snoc_other (k : string) (d : value) (l : list value) :
  ip_of d <> Some k -> index_of k (l ++ [d]) = index_of k l.
Proof.
  intros Hd. induction l as [|x l IH]; cbn [app index_of].
  - now rewrite bool_decide_eq_false_2.
  - now rewrite IH.
Qed.

Lemma lookup_ip_upsert_other (k ip : string) (d : value) (l : list value) :
  k <> ip -> ip_of d = Some ip -> lookup_ip k (upsert ip d l) = lookup_ip k l.
Proof.
  intros Hk Hd.
  assert (Hdk : ip_of d <> Some k) by congruence.
  unfold lookup_ip, upsert. destruct (index_of ip l) as [i|] eqn:Ei.
  - destruct (RendererProps.index_of_Some ip l i Ei) as (c & Hc & Hcip).
    rewrite (index_of_insert_other k d c l i Hc) by congruence.
    destruct (index_of k l) as [j|] eqn:Ej; [| reflexivity]. cbn.
    destruct (RendererProps.index_of_Some k l j Ej) as (c' & Hc' & Hck).
    apply list_lookup_insert_ne. intros ->. congruence.
  - rewrite index_of_snoc_other by exact Hdk.
    destruct (index_of k l) as [j|] eqn:Ej; [| reflexivity]. cbn.
    apply lookup_app_l. now apply (RendererProps.index_of_lt k).
Qed.

Lemma arrivals_prefix (ips acc : list string) : acc `prefix_of` arrivals acc ips.
Proof.
  revert acc. induction ips as [|ip ips IH]; intros acc; cbn [arrivals]; [reflexivity |].
  destruct (decide (ip ∈ acc)); [apply IH |].
  transitivity (acc ++ [ip])%list; [now apply prefix_app_r | apply IH].
Qed.

Lemma is_update_strict_equal (number_eq : string -> string -> bool) (m tag : value) :
  prop m "event" = Ok tag ->
  is_update m = strict_equal number_eq tag (VString "charger_status_update").
Proof. unfold is_update. intros ->. now destruct tag. Qed.

Section Stream.

Variable number_eq : string -> string -> bool.

(** X10.  A message delivered twice in a row, as it is when the listener was
    registered twice, leaves the registry as one delivery does. *)
Theorem duplicate_delivery_is_harmless (messages : list value) (l : list value) :
  Forall (fun m => is_Some (event_ip m)) messages ->
  records l ->
  apply_events number_eq (twice messages) (VArray l) =
  apply_events number_eq messages (VArray l).
Proof.
  intros Hev. revert l. induction Hev as [|m ms [ip Hip] _ IH]; intros l Hl; [reflexivity |].
  destruct (RendererProps.event_ip_Some m ip Hip) as (d & Hd & Hdip).
  pose proof (RendererProps.upsert_records ip d l Hdip Hl) as Hl1.
  change (twice (m :: ms)) with (m :: m :: twice ms). cbn [apply_events].
  rewrite (RendererProps.handleChargerData_records number_eq m d ip l Hd Hdip Hl), !bind_Ok.
  rewrite (RendererProps.handleChargerData_records number_eq m d ip _ Hd Hdip Hl1), bind_Ok.
  rewrite upsert_idempotent by exact Hdip. now apply IH.
Qed.

(** X11.  Messages whose [event] is not ['charger_status_update'] change
    nothing, whatever the registry holds: the outcome of a sequence of
    messages is that of its status updates alone. *)
Theorem other_messages_are_ignored (messages : list value) (chargers : value) :
  forallb readable messages = true ->
  apply_events number_eq messages chargers =
  apply_events number_eq (List.filter is_update messages) chargers.
Proof.
  revert chargers. induction messages as [|m ms IH]; intros chargers Hr; [reflexivity |].
  cbn [forallb] in Hr. apply andb_true_iff in Hr as [Hm Hr].
  assert (Htag : exists tag, prop m "event" = Ok tag).
  { destruct m; try discriminate; cbn; eauto. }
  destruct Htag as [tag Htag].
  cbn [List.filter apply_events].
  rewrite (is_update_strict_equal number_eq m tag Htag).
  destruct (strict_equal number_eq tag (VString "charger_status_update")) eqn:Heq.
  - cbn [apply_events].
    destruct (handleChargerData number_eq m chargers) as [c|e]; [| reflexivity].
    rewrite !bind_Ok. now apply IH.
  - rewrite (RendererProps.handleChargerData_other number_eq m tag chargers Htag Heq), bind_Ok.
    now apply IH.
Qed.

Lemma apply_events_arrivals (events : list value) (l : list value) :
  Forall (fun m => is_Some (event_ip m)) events ->
  records l ->
  exists reg,
    apply_events number_eq events (VArray l) = Ok (VArray reg)
    /\ records reg
    /\ keys reg = arrivals (keys l) (omap event_ip events).
Proof.
  intros Hev. revert l. induction Hev as [|m ms [ip Hip] _ IH]; intros l Hl.
  - exists l. now repeat split.
  - destruct (RendererProps.event_ip_Some m ip Hip) as (d & Hd & Hdip).
    destruct (IH (upsert ip d l) (RendererProps.upsert_records ip d l Hdip Hl))
      as (reg & Hrun & Hrec & Hkeys).
    exists reg. split; [| split; [exact Hrec |]].
    + cbn [apply_events].
      now rewrite (RendererProps.handleChargerData_records number_eq m d ip l Hd Hdip Hl), bind_Ok.
    + rewrite Hkeys, (RendererProps.upsert_keys ip d l Hdip).
      cbn [omap list_omap]. rewrite Hip. reflexivity.
Qed.

(** X12.  No sequence of status updates moves or removes an entry: the keys the
    registry had stay where they were, and the new keys follow in the order
    in which they first arrived. *)
Theorem entries_keep_their_place (events : list value) (l : list value) :
  Forall (fun m => is_Some (event_ip m)) events ->
  records l ->
  exists reg,
    apply_events number_eq events (VArray l) = Ok (VArray reg)
    /\ keys reg = arrivals (keys l) (omap event_ip events)
    /\ keys l `prefix_of` keys reg
    /\ length l <= length reg.
Proof.
  intros Hev Hl.
  destruct (apply_events_arrivals events l Hev Hl) as (reg & Hrun & Hrec & Hkeys).
  exists reg. split; [exact Hrun | split; [exact Hkeys |]].
  assert (Hpre : keys l `prefix_of` keys reg) by (rewrite Hkeys; apply arrivals_prefix).
  split; [exact Hpre |].
  rewrite <- (RendererProps.keys_length l Hl), <- (RendererProps.keys_length reg Hrec).
  now apply prefix_length.
Qed.

Lemma apply_events_latest (events : list value) (l : list value) :
  Forall (fun m => is_Some (event_ip m)) events ->
  records l ->
  exists reg,
    apply_events number_eq events (VArray l) = Ok (VArray reg)
    /\ forall k, lookup_ip k reg = latest k events (lookup_ip k l).
Proof.
  intros Hev. revert l. induction Hev as [|m ms [ip Hip] _ IH]; intros l Hl.
  - exists l. now split.
  - destruct (RendererProps.event_ip_Some m ip Hip) as (d & Hd & Hdip).
    destruct (IH (upsert ip d l) (RendererProps.upsert_records ip d l Hdip Hl))
      as (reg & Hrun & Hlatest).
    exists reg. split.
    + cbn [apply_events].
      now rewrite (RendererProps.handleChargerData_records number_eq m d ip l Hd Hdip Hl), bind_Ok.
    + intros k. rewrite Hlatest. cbn [latest]. rewrite Hip, Hd. f_equal.
      case_bool_decide as Hk.
      * injection Hk as ->. now apply lookup_ip_upsert_same.
      * apply lookup_ip_upsert_other; [congruence | exact Hdip].
Qed.

(** X13.  After any sequence of status updates the registry holds, for every
    key, the record of the last event that carried the key, and the record
    it held before for a key no event carried. *)
Theorem latest_record_wins (events : list value) (l : list value) (k : string) :
  Forall (fun m => is_Some (event_ip m)) events ->
  records l ->
  exists reg,
    apply_events number_eq events (VArray l) = Ok (VArray reg)
    /\ lookup_ip k reg = latest k events (lookup_ip k l).
Proof.
  intros Hev Hl. destruct (apply_events_latest events l Hev Hl) as (reg & Hrun & Hlatest).
  exists reg. now split.
Qed.

(** X14.  A response without [devices] that is not [{success: false}] is taken
    as a success: the registry becomes [undefined], the error is cleared,
    and the next status update throws in the updater. *)
Theorem refresh_without_devices_breaks_updates (data success message : value)
  (st : AppState) :
  prop data "success" = Ok success ->
  strict_equal number_eq success (VBool false) = false ->
  prop data "devices" = Ok VUndefined ->
  prop message "event" = Ok (VString "charger_status_update") ->
  fetchData number_eq (Ok data) st = {| chargers := VUndefined; error := VNull |}
  /\ handleChargerData number_eq message (chargers (fetchData number_eq (Ok data) st)) =
       Throw (TypeError "Cannot read properties of undefined (reading 'findIndex')").
Proof.
  intros Hs Hne Hd Hev.
  assert (Hfetch : fetchData number_eq (Ok data) st =
                   {| chargers := VUndefined; error := VNull |}).
  { unfold fetchData. now rewrite !bind_Ok, Hs, bind_Ok, Hne, Hd. }
  split; [exact Hfetch |]. rewrite Hfetch. cbn [chargers].
  unfold handleChargerData. now rewrite Hev.
Qed.

(** X15.  A refresh either replaces the registry or leaves it alone, never
    merges: a response that is not [{success: false}] puts [data.devices] in
    the place of whatever the registry held and clears the error;
    [{success: false}] keeps the registry and shows [data.message], which is
    [undefined] when the response has none. *)
Theorem refresh_replaces_or_keeps (data success : value) :
  prop data "success" = Ok success ->
  exists devices message,
    prop data "devices" = Ok devices
    /\ prop data "message" = Ok message
    /\ forall st,
         fetchData number_eq (Ok data) st =
         if strict_equal number_eq success (VBool false)
         then {| chargers := chargers st; error := message |}
         else {| chargers := devices; error := VNull |}.
Proof.
  intros Hs.
  assert (Hd : exists devices, prop data "devices" = Ok devices)
    by (destruct data; try discriminate; cbn; eauto).
  assert (Hm : exists message, prop data "message" = Ok message)
    by (destruct data; try discriminate; cbn; eauto).
  destruct Hd as [devices Hd], Hm as [message Hm].
  exists devices, message. split; [exact Hd | split; [exact Hm |]].
  intros st. unfold fetchData. rewrite !bind_Ok, Hs, bind_Ok.
  destruct (strict_equal number_eq success (VBool false)); [now rewrite Hm | now rewrite Hd].
Qed.

Lemma findIndex_app_none (f : value -> result bool) (l l' : list value) (i : nat) :
  findIndex f l i = Ok None -> findIndex f (l ++ l') i = findIndex f l' (i + length l).
Proof.
  revert i. induction l as [|c l IH]; intros i; cbn [findIndex app length].
  - intros _. f_equal. lia.
  - destruct (f c) as [[|]|e]; cbn; try discriminate.
    intros H. rewrite (IH (S i) H). f_equal. lia.
Qed.

Lemma findIndex_records_none (message data : value) (l : list value) (i : nat) :
  prop message "data" = Ok data -> prop data "ip" = Ok VUndefined -> records l ->
  findIndex
    (fun c =>
       cip ← prop c "ip";
       data ← prop message "data";
       dip ← prop data "ip";
       Ok (strict_equal number_eq cip dip)) l i
  = Ok None.
Proof.
  intros Hdata Hip Hl.
  set (same_ip := fun c : value => _).
  assert (Hsame : forall c k, ip_of c = Some k -> same_ip c = Ok false).
  { intros c k Hk. unfold same_ip.
    now rewrite (RendererProps.ip_of_Some c k Hk), bind_Ok, Hdata, bind_Ok, Hip, bind_Ok. }
  clearbody same_ip. revert i.
  induction Hl as [|c l [k Hk] _ IH]; intros i; cbn [findIndex]; [reflexivity |].
  rewrite (Hsame c k Hk), bind_Ok. apply IH.
Qed.


(** X20.  Records without [ip] share one entry: on a registry of records
    with string keys the first such record is appended, and the next one
    takes its place, whatever the two records are. *)
Theorem records_without_ip_share_an_entry (m1 m2 d1 d2 : value) (l : list value) :
  records l ->
  prop m1 "event" = Ok (VString "charger_status_update") ->
  prop m2 "event" = Ok (VString "charger_status_update") ->
  prop m1 "data" = Ok d1 -> prop d1 "ip" = Ok VUndefined ->
  prop m2 "data" = Ok d2 -> prop d2 "ip" = Ok VUndefined ->
  handleChargerData number_eq m1 (VArray l) = Ok (VArray (l ++ [d1]))
  /\ apply_events number_eq [m1; m2] (VArray l) = Ok (VArray (l ++ [d2])).
Proof.
  intros Hl He1 He2 Hd1 Hi1 Hd2 Hi2.
  assert (H1 : handleChargerData number_eq m1 (VArray l) = Ok (VArray (l ++ [d1]))).
  { unfold handleChargerData. rewrite He1, bind_Ok. cbn [strict_equal].
    rewrite String.eqb_refl, (findIndex_records_none m1 d1 l 0 Hd1 Hi1 Hl), bind_Ok.
    now rewrite Hd1. }
  split; [exact H1 |].
  cbn [apply_events]. rewrite H1, !bind_Ok.
  unfold handleChargerData. rewrite He2, bind_Ok. cbn [strict_equal].
  rewrite String.eqb_refl.
  rewrite findIndex_app_none by exact (findIndex_records_none m2 d2 l 0 Hd2 Hi2 Hl).
  cbn [findIndex]. rewrite Hi1. cbn [mbind result_bind].
  rewrite Hd2. cbn [mbind result_bind]. rewrite Hi2.
  cbn [mbind result_bind strict_equal]. do 2 f_equal.
  rewrite insert_app_r_alt by (cbn; lia).
  now replace (0 + length l - length l) with 0 by lia.
Qed.

End Stream.

Lemma duplicate_delivery_is_harmless_witness :
  apply_events String.eqb
    (twice [update (record "10.0.0.5" "Charging"); update (record "10.0.0.6" "Available")])
    (VArray [record "10.0.0.6" "Preparing"])
  = Ok (VArray [record "10.0.0.6" "Available"; record "10.0.0.5" "Charging"]).
Proof.
  refine (eq_trans
            (duplicate_delivery_is_harmless String.eqb
               [update (record "10.0.0.5" "Charging"); update (record "10.0.0.6" "Available")]
               [record "10.0.0.6" "Preparing"] _ _) _).
  - repeat (constructor; [eexists; reflexivity |]). constructor.
  - repeat (constructor; [eexists; reflexivity |]). constructor.
  - reflexivity.
Defined.

Lemma other_messages_are_ignored_witness :
  apply_events String.eqb
    [VObject [("event", VString "heartbeat")]; update (record "10.0.0.5" "Charging");
     VNumber "7"; VArray []]
    (VArray [])
  = Ok (VArray [record "10.0.0.5" "Charging"]).
Proof.
  refine (eq_trans
            (other_messages_are_ignored String.eqb
               [VObject [("event", VString "heartbeat")]; update (record "10.0.0.5" "Charging");
                VNumber "7"; VArray []]
               (VArray []) eq_refl) _).
  reflexivity.
Defined.

Lemma entries_keep_their_place_witness :
  exists reg,
    apply_events String.eqb
      [update (record "10.0.0.7" "Charging"); update (record "10.0.0.5" "Charging");
       update (record "10.0.0.7" "Available")]
      (VArray [record "10.0.0.5" "Available"; record "10.0.0.6" "Available"])
    = Ok (VArray reg)
    /\ keys reg = ["10.0.0.5"; "10.0.0.6"; "10.0.0.7"].
Proof.
  destruct (entries_keep_their_place String.eqb
              [update (record "10.0.0.7" "Charging"); update (record "10.0.0.5" "Charging");
               update (record "10.0.0.7" "Available")]
              [record "10.0.0.5" "Available"; record "10.0.0.6" "Available"])
    as (reg & Hrun & Hkeys & _).
  - repeat (constructor; [eexists; reflexivity |]). constructor.
  - repeat (constructor; [eexists; reflexivity |]). constructor.
  - exists reg. split; [exact Hrun |]. rewrite Hkeys. vm_compute. reflexivity.
Defined.

Lemma latest_record_wins_witness :
  exists reg,
    apply_events String.eqb
      [update (record "10.0.0.7" "Charging"); update (record "10.0.0.5" "Charging");
       update (record "10.0.0.7" "Available")]
      (VArray [record "10.0.0.5" "Available"; record "10.0.0.6" "Available"])
    = Ok (VArray reg)
    /\ lookup_ip "10.0.0.7" reg = Some (record "10.0.0.7" "Available").
Proof.
  destruct (latest_record_wins String.eqb
              [update (record "10.0.0.7" "Charging"); update (record "10.0.0.5" "Charging");
               update (record "10.0.0.7" "Available")]
              [record "10.0.0.5" "Available"; record "10.0.0.6" "Available"] "10.0.0.7")
    as (reg & Hrun & Hlatest).
  - repeat (constructor; [eexists; reflexivity |]). constructor.
  - repeat (constructor; [eexists; reflexivity |]). constructor.
  - exists reg. split; [exact Hrun |]. rewrite Hlatest. vm_compute. reflexivity.
Defined.

Lemma refresh_without_devices_breaks_updates_witness :
  handleChargerData String.eqb (update (record "10.0.0.5" "Charging"))
    (chargers (fetchData String.eqb (Ok (VObject [("success", VBool true)])) initial)) =
  Throw (TypeError "Cannot read properties of undefined (reading 'findIndex')").
Proof.
  apply (refresh_without_devices_breaks_updates String.eqb
           (VObject [("success", VBool true)]) (VBool true)
           (update (record "10.0.0.5" "Charging")) initial);
    reflexivity.
Defined.

Lemma refresh_replaces_or_keeps_witness :
  fetchData String.eqb
    (Ok (VObject [("success", VBool false)]))
    {| chargers := VArray [record "10.0.0.5" "Charging"]; error := VNull |} =
  {| chargers := VArray [record "10.0.0.5" "Charging"]; error := VUndefined |}.
Proof.
  destruct (refresh_replaces_or_keeps String.eqb
              (VObject [("success", VBool false)]) (VBool false) eq_refl)
    as (devices & message & _ & Hm & H).
  rewrite H. cbn in Hm. injection Hm as <-. reflexivity.
Defined.


Lemma records_without_ip_share_an_entry_witness :
  apply_events String.eqb
    [update (VObject [("status", VString "Charging")]);
     update (VObject [("status", VString "Available"); ("hostname_info", VString "b")])]
    (VArray [record "10.0.0.5" "Charging"]) =
  Ok (VArray [record "10.0.0.5" "Charging";
              VObject [("status", VString "Available"); ("hostname_info", VString "b")]]).
Proof.
  apply (records_without_ip_share_an_entry String.eqb
           (update (VObject [("status", VString "Charging")]))
           (update (VObject [("status", VString "Available"); ("hostname_info", VString "b")]))
           (VObject [("status", VString "Charging")])
           (VObject [("status", VString "Available"); ("hostname_info", VString "b")])
           [record "10.0.0.5" "Charging"]);
    try reflexivity.
  repeat (constructor; [eexists; reflexivity |]). constructor.
Defined.

(** *** The status indicator *)

Lemma pulse_key (k : string) :
  StatusIndicator_pulse (iconInfo k) = true <-> k = "available".
Proof.
  rewrite RendererProps.iconInfo_cases. unfold own_key.
  destruct (String.eqb_spec k "available") as [->|Hne]; [now split |].
  split; [| now intros ->]. intros H. exfalso.
  destruct (k =? "charging"); [discriminate |].
  destruct (k =? "preparing"); [discriminate |].
  destruct (k =? "suspendedev"); [discriminate |].
  destruct (k =? "unknown"); [discriminate |].
  destruct (existsb (String.eqb k) Object_prototype); discriminate.
Qed.

(** X16.  The pulse animation is drawn for a charger exactly when its status,
    lower-cased and trimmed, is [available]; in particular for no status
    that falls back to [unknown] and for none that reaches an inherited
    name. *)
Theorem pulse_only_when_available (charger : value) (status : string) :
  prop charger "status" = Ok (VString status) ->
  exists m,
    status_icon charger = Ok m
    /\ (StatusIndicator_pulse m = true <-> trim (toLowerCase status) = "available").
Proof.
  intros Hs. exists (iconInfo (trim (toLowerCase status))).
  split; [| apply pulse_key].
  unfold status_icon. now rewrite Hs.
Qed.

Lemma pulse_only_when_available_witness :
  exists m,
    status_icon (record "10.0.0.5" " AVAILABLE ") = Ok m
    /\ StatusIndicator_pulse m = true.
Proof.
  destruct (pulse_only_when_available (record "10.0.0.5" " AVAILABLE ") " AVAILABLE " eq_refl)
    as (m & Hm & Hiff).
  exists m. split; [exact Hm |]. apply Hiff. reflexivity.
Defined.

(** X18.  A status that, lower-cased and trimmed, is neither
    [constructor] nor [__proto__] gets the entry of its own name when it is
    one of the five keys of [statusIcons], and the entry of [unknown]
    otherwise, whatever its case and the white space around it. *)
Theorem status_resolves_to_entry (charger : value) (status : string) :
  prop charger "status" = Ok (VString status) ->
  trim (toLowerCase status) <> "constructor" ->
  trim (toLowerCase status) <> "__proto__" ->
  status_icon charger =
    Ok (Entry (default unknown (own_key (trim (toLowerCase status))))).
Proof.
  intros Hs Hc Hp. unfold status_icon. rewrite Hs, bind_Ok.
  destruct (RendererProps.status_lookup_cases status) as [H|[[H _]|[H _]]];
    [now rewrite H | contradiction | contradiction].
Qed.

Lemma status_resolves_to_entry_witness :
  status_icon (record "10.0.0.5" "SuspendedEV ") = Ok (Entry suspendedev)
  /\ status_icon (record "10.0.0.5" "hasOwnProperty") = Ok (Entry unknown).
Proof.
  split.
  - refine (eq_trans
              (status_resolves_to_entry (record "10.0.0.5" "SuspendedEV ") "SuspendedEV "
                 eq_refl _ _) _); [discriminate | discriminate | reflexivity].
  - reflexivity.
Defined.

End RendererExtra.

(** * From the monitor's output to what the registry holds *)
Module BridgeExtra.
Import Main Renderer.

(** X17.  While the window is open, and when every chunk that decodes is a
    well-formed status update, the registry holds after the stream, for
    every key, the record of the last chunk that carried the key; chunks
    that do not decode in between change nothing. *)
Theorem stream_reaches_registry (number_eq : string -> string -> bool)
  (s : State) (p : nat) (chunks : list string) (l : list value) (k : string) :
  mainWindow s = true ->
  children s !! p = Some Monitor ->
  Forall (fun m => is_Some (event_ip m)) (omap decoded chunks) ->
  records l ->
  exists reg,
    apply_events number_eq (sent (snd (run s (map (StdoutData p) chunks)))) (VArray l) =
      Ok (VArray reg)
    /\ lookup_ip k reg = latest k (omap decoded chunks) (lookup_ip k l).
Proof.
  intros Hw Hp Hev Hl.
  rewrite MainProps.run_monitor_chunks by exact Hp. rewrite Hw. cbn [snd].
  rewrite (proj1 (MainExtra.monitor_effects true chunks)).
  destruct (RendererExtra.apply_events_latest number_eq _ l Hev Hl) as (reg & Hrun & Hlatest).
  exists reg. now split.
Qed.

Lemma stream_reaches_registry_witness :
  exists reg,
    apply_events String.eqb
      (sent (snd (run monitoring
                    (map (StdoutData 0)
                       [quoted "{'event':'charger_status_update','data':{'ip':'10.0.0.5','status':'Charging'}}";
                        "{a}";
                        quoted "{'event':'charger_status_update','data':{'ip':'10.0.0.5','status':'Available'}}"]))))
      (VArray []) = Ok (VArray reg)
    /\ lookup_ip "10.0.0.5" reg = Some (record "10.0.0.5" "Available").
Proof.
  destruct (stream_reaches_registry String.eqb monitoring 0
              [quoted "{'event':'charger_status_update','data':{'ip':'10.0.0.5','status':'Charging'}}";
               "{a}";
               quoted "{'event':'charger_status_update','data':{'ip':'10.0.0.5','status':'Available'}}"]
              [] "10.0.0.5")
    as (reg & Hrun & Hlatest).
  - reflexivity.
  - reflexivity.
  - vm_compute. repeat (constructor; [eexists; reflexivity |]). constructor.
  - constructor.
  - exists reg. split; [exact Hrun |]. rewrite Hlatest. vm_compute. reflexivity.
Defined.

End BridgeExtra.
